(** * pypubsub-ldap: the LDAP change detector of [client.py]

    A shallow embedding of [client.py]: the Python values that travel through
    the program (bytes, str, list, dict), the conversion [stringify], the
    syncrepl consumer [SyncReplClient] with its callbacks, and the
    supervisor loop [main].

    Conventions of the embedding.
    - A Python [bytes] is a [list byte]; a Python [str] is the list of its
      code points; [str(b, 'utf-8')] is the strict decoder [Utf8.decode].
    - A Python [dict] is an insertion-ordered association list with string
      keys ([odict]); assignment to an existing key keeps its position.
    - A raised exception is the [Raise] outcome of [result]; the callbacks
      run in a state-and-exception monad [M] whose state survives a raise,
      as the mutations of a Python object do.
    - [print] calls are not modelled. *)

From Stdlib Require Import List String Ascii NArith Bool Lia.
From Stdlib.Strings Require Import Byte.
Import ListNotations.
Local Open Scope string_scope.
Local Open Scope list_scope.

(** ** Exceptions and results *)

Inductive exn : Type :=
| UnicodeDecodeError
| KeyError
| INVALID_CREDENTIALS
| SERVER_DOWN
| LDAPError (desc : string)
| KeyboardInterrupt
| SystemExit (status : N)
| OtherException (desc : string).

(** [isinstance(e, Exception)]: [KeyboardInterrupt] and [SystemExit] derive
    from [BaseException] only. *)
Definition is_Exception (e : exn) : bool :=
  match e with
  | KeyboardInterrupt | SystemExit _ => false
  | _ => true
  end.

Inductive result (A : Type) : Type :=
| Ok (a : A)
| Raise (e : exn).
Arguments Ok {A} a.
Arguments Raise {A} e.

Definition rbind {A B} (r : result A) (f : A -> result B) : result B :=
  match r with
  | Ok a => f a
  | Raise e => Raise e
  end.

Definition rmap {A B} (f : A -> B) (r : result A) : result B :=
  rbind r (fun a => Ok (f a)).

(** ** Text and the strict UTF-8 decoder *)

Definition text := list N.

(** The text whose code points are the characters of an ASCII literal. *)
Fixpoint txt (s : string) : text :=
  match s with
  | EmptyString => []
  | String c r => N_of_ascii c :: txt r
  end.

Module Utf8.

Definition between (lo hi n : N) : bool := (lo <=? n)%N && (n <=? hi)%N.

Definition continuation (n : N) : bool := between 0x80 0xBF n.

(** The range allowed for the second byte after lead byte [b0]
    (well-formed sequences: no overlong forms, no surrogates, nothing
    above U+10FFFF). *)
Definition second_ok (b0 b1 : N) : bool :=
  if (b0 =? 0xE0)%N then between 0xA0 0xBF b1
  else if (b0 =? 0xED)%N then between 0x80 0x9F b1
  else if (b0 =? 0xF0)%N then between 0x90 0xBF b1
  else if (b0 =? 0xF4)%N then between 0x80 0x8F b1
  else continuation b1.

Definition push (t : option text) (cp : N) : option text :=
  option_map (cons cp) t.

Fixpoint decode (bs : list byte) : option text :=
  match bs with
  | [] => Some []
  | c0 :: r0 =>
    let b0 := Byte.to_N c0 in
    if (b0 <? 0x80)%N then push (decode r0) b0
    else if between 0xC2 0xDF b0 then
      match r0 with
      | c1 :: r1 =>
        let b1 := Byte.to_N c1 in
        if continuation b1
        then push (decode r1) ((b0 - 0xC0) * 0x40 + (b1 - 0x80))%N
        else None
      | _ => None
      end
    else if between 0xE0 0xEF b0 then
      match r0 with
      | c1 :: c2 :: r2 =>
        let b1 := Byte.to_N c1 in
        let b2 := Byte.to_N c2 in
        if second_ok b0 b1 && continuation b2
        then push (decode r2)
               ((b0 - 0xE0) * 0x1000 + (b1 - 0x80) * 0x40 + (b2 - 0x80))%N
        else None
      | _ => None
      end
    else if between 0xF0 0xF4 b0 then
      match r0 with
      | c1 :: c2 :: c3 :: r3 =>
        let b1 := Byte.to_N c1 in
        let b2 := Byte.to_N c2 in
        let b3 := Byte.to_N c3 in
        if second_ok b0 b1 && continuation b2 && continuation b3
        then push (decode r3)
               ((b0 - 0xF0) * 0x40000 + (b1 - 0x80) * 0x1000
                + (b2 - 0x80) * 0x40 + (b3 - 0x80))%N
        else None
      | _ => None
      end
    else None
  end.

Definition valid (bs : list byte) : bool :=
  match decode bs with Some _ => true | None => false end.

End Utf8.

(** [str(b, 'utf-8')]: strict decoding, [UnicodeDecodeError] on a malformed
    sequence. *)
Definition str_utf8 (b : list byte) : result text :=
  match Utf8.decode b with
  | Some t => Ok t
  | None => Raise UnicodeDecodeError
  end.

(** ** Insertion-ordered dictionaries *)

Section ODict.
Context {V : Type}.

Definition odict := list (string * V).

Fixpoint od_get (k : string) (d : odict) : option V :=
  match d with
  | [] => None
  | (k', v) :: r => if String.eqb k k' then Some v else od_get k r
  end.

Definition od_mem (k : string) (d : odict) : bool :=
  match od_get k d with Some _ => true | None => false end.

(** [d[k] = v] *)
Fixpoint od_set (k : string) (v : V) (d : odict) : odict :=
  match d with
  | [] => [(k, v)]
  | (k', v') :: r =>
    if String.eqb k k' then (k', v) :: r else (k', v') :: od_set k v r
  end.

(** [del d[k]], for a key that is present: no binding of [k] stays. *)
Definition od_del (k : string) (d : odict) : odict :=
  filter (fun kv => negb (String.eqb k (fst kv))) d.

Definition od_keys (d : odict) : list string := map fst d.

(** [d[k]] *)
Definition od_item (k : string) (d : odict) : result V :=
  match od_get k d with
  | Some v => Ok v
  | None => Raise KeyError
  end.

End ODict.
Arguments odict V : clear implicits.

(** ** Python values *)

#[warnings="-register-all"]
Inductive pyval : Type :=
| PBytes (b : list byte)
| PStr (s : text)
| PList (l : list pyval)
| PDict (d : list (string * pyval)).

Definition dict := odict pyval.

Section PyvalInd.
Variable P : pyval -> Prop.
Hypothesis HBytes : forall b, P (PBytes b).
Hypothesis HStr : forall s, P (PStr s).
Hypothesis HList : forall l, Forall P l -> P (PList l).
Hypothesis HDict : forall d, Forall (fun kv => P (snd kv)) d -> P (PDict d).

Fixpoint pyval_nested_ind (v : pyval) : P v :=
  match v with
  | PBytes b => HBytes b
  | PStr s => HStr s
  | PList l =>
    HList l
      ((fix elems (l : list pyval) : Forall P l :=
          match l with
          | [] => Forall_nil _
          | x :: r => Forall_cons _ (pyval_nested_ind x) (elems r)
          end) l)
  | PDict d =>
    HDict d
      ((fix items (d : list (string * pyval))
          : Forall (fun kv => P (snd kv)) d :=
          match d with
          | [] => Forall_nil _
          | kv :: r => Forall_cons _ (pyval_nested_ind (snd kv)) (items r)
          end) d)
  end.
End PyvalInd.

(** ** stringify *)

Section Loops.
Variable conv : pyval -> result pyval.

(** The loop [for k, v in obj.items(): obj[k] = conv(v)] over a dict that
    is updated in place: the dict as the loop leaves it, and the exception
    that stopped it, if any. *)
Fixpoint dict_loop (d : dict) : dict * option exn :=
  match d with
  | [] => ([], None)
  | (k, v) :: r =>
    match conv v with
    | Ok v' => let (r', e) := dict_loop r in ((k, v') :: r', e)
    | Raise e => (d, Some e)
    end
  end.

(** The loop [for el in obj: newlist.append(conv(el))]. *)
Fixpoint list_loop (l : list pyval) : result (list pyval) :=
  match l with
  | [] => Ok []
  | el :: r =>
    rbind (conv el) (fun el' =>
    rbind (list_loop r) (fun r' => Ok (el' :: r')))
  end.
End Loops.

(** [stringify], lines 108 to 127. A bytes argument is decoded. A dict is
    walked once: a bytes value is decoded, a list value is converted by a
    recursive call, any other value (a text, a dict) stays. A list is
    rebuilt: a bytes element is decoded, a list element is converted by a
    recursive call, any other element (a text, a dict) stays. *)
Fixpoint stringify (obj : pyval) : result pyval :=
  match obj with
  | PBytes b => rmap PStr (str_utf8 b)
  | PStr _ => Ok obj
  | PDict d =>
    match dict_loop (fun v =>
            match v with
            | PBytes b => rmap PStr (str_utf8 b)
            | PList _ => stringify v
            | _ => Ok v
            end) d with
    | (d', None) => Ok (PDict d')
    | (_, Some e) => Raise e
    end
  | PList l =>
    rmap PList (list_loop (fun el =>
            match el with
            | PBytes b => rmap PStr (str_utf8 b)
            | PList _ => stringify el
            | _ => Ok el
            end) l)
  end.

(** What the loops of [stringify] do to one dict value or list element. *)
Definition convert_member (v : pyval) : result pyval :=
  match v with
  | PBytes b => rmap PStr (str_utf8 b)
  | PList _ => stringify v
  | _ => Ok v
  end.

(** [stringify] on a dict argument: the dict object as the call leaves it
    (it is updated in place, also when the call raises). *)
Definition stringify_dict (d : dict) : dict * option exn :=
  dict_loop convert_member d.

(** ** The consumer: [SyncReplClient]

    The attribute dicts that the directory client hands to [syncrepl_entry]
    are taken to be distinct objects, one per call, as the decoder of the
    client library builds them. Under that reading a dict is shared only
    between a callback's local variable and the slot of [changedb] it was
    stored in, and every in-place update below is written back to that
    slot. *)

(** The arguments of one call of [post_change]. *)
Record ChangeEvent : Type := {
  ev_dn : pyval;
  ev_attributes : dict;
  ev_previous_attributes : dict;
  ev_change_type : string
}.

(** The dict [js] of [post_change]. *)
Record payload : Type := {
  js_dn : pyval;
  js_change_type : string;
  js_old_attributes : pyval;
  js_new_attributes : pyval
}.

Record SyncReplClient : Type := {
  cookie : option string;
  sync_done : bool;
  changedb : odict dict;
  presentUUIDs : odict bool;
  pubsub_url : string
}.

(** [SyncReplClient.__init__] *)
Definition new_client : SyncReplClient := {|
  cookie := None;
  sync_done := false;
  changedb := [];
  presentUUIDs := [];
  pubsub_url := "http://localhost:2069/private/ldap"
|}.

(** The connection object together with what the process has done so far:
    the calls of [post_change], the requests handed to [requests.put], and
    the [time.sleep] calls. *)
Record machine : Type := {
  self : SyncReplClient;
  calls : list ChangeEvent;
  puts : list (string * payload);
  slept : list N
}.

Definition boot : machine :=
  {| self := new_client; calls := []; puts := []; slept := [] |}.

Definition with_self (f : SyncReplClient -> SyncReplClient) (m : machine)
  : machine :=
  {| self := f (self m); calls := calls m; puts := puts m; slept := slept m |}.

Definition set_changedb (db : odict dict) (c : SyncReplClient)
  : SyncReplClient :=
  {| cookie := cookie c; sync_done := sync_done c; changedb := db;
     presentUUIDs := presentUUIDs c; pubsub_url := pubsub_url c |}.

Definition set_presentUUIDs (p : odict bool) (c : SyncReplClient)
  : SyncReplClient :=
  {| cookie := cookie c; sync_done := sync_done c; changedb := changedb c;
     presentUUIDs := p; pubsub_url := pubsub_url c |}.

Definition set_sync_done (b : bool) (c : SyncReplClient) : SyncReplClient :=
  {| cookie := cookie c; sync_done := b; changedb := changedb c;
     presentUUIDs := presentUUIDs c; pubsub_url := pubsub_url c |}.

Definition set_cookie (k : option string) (c : SyncReplClient)
  : SyncReplClient :=
  {| cookie := k; sync_done := sync_done c; changedb := changedb c;
     presentUUIDs := presentUUIDs c; pubsub_url := pubsub_url c |}.

Definition set_url (u : string) (c : SyncReplClient) : SyncReplClient :=
  {| cookie := cookie c; sync_done := sync_done c; changedb := changedb c;
     presentUUIDs := presentUUIDs c; pubsub_url := u |}.

Definition log_call (e : ChangeEvent) (m : machine) : machine :=
  {| self := self m; calls := calls m ++ [e]; puts := puts m;
     slept := slept m |}.

Definition log_put (url : string) (js : payload) (m : machine) : machine :=
  {| self := self m; calls := calls m; puts := puts m ++ [(url, js)];
     slept := slept m |}.

Definition log_sleep (secs : N) (m : machine) : machine :=
  {| self := self m; calls := calls m; puts := puts m;
     slept := slept m ++ [secs] |}.

(** *** The monad of the callbacks *)

Definition M (A : Type) : Type := machine -> result A * machine.

Definition ret {A} (a : A) : M A := fun m => (Ok a, m).

Definition bind {A B} (c : M A) (k : A -> M B) : M B :=
  fun m =>
    match c m with
    | (Ok a, m') => k a m'
    | (Raise e, m') => (Raise e, m')
    end.

Definition gets {A} (f : machine -> A) : M A := fun m => (Ok (f m), m).

Definition update (f : machine -> machine) : M unit :=
  fun m => (Ok tt, f m).

Declare Scope monad_scope.
Delimit Scope monad_scope with monad.
Notation "x <- c ;; k" := (bind c (fun x => k))
  (at level 61, c at next level, right associativity) : monad_scope.
Notation "c ;;; k" := (bind c (fun _ => k))
  (at level 61, right associativity) : monad_scope.
Local Open Scope monad_scope.

(** [for x in l: f(x)] *)
Fixpoint for_each {X} (f : X -> M unit) (l : list X) : M unit :=
  match l with
  | [] => ret tt
  | x :: r => f x ;;; for_each f r
  end.

(** *** [post_change] *)

(** The dict display [js = {...}]: its three [stringify] calls run in the
    order of the keys, and the two dict arguments are converted in place.
    The result gives both dicts as the evaluation leaves them. *)
Definition build_js (dn : pyval) (attributes previous_attributes : dict)
    (change_type : string) : dict * dict * result payload :=
  match stringify dn with
  | Raise e => (attributes, previous_attributes, Raise e)
  | Ok dn' =>
    match stringify_dict previous_attributes with
    | (previous', Some e) => (attributes, previous', Raise e)
    | (previous', None) =>
      match stringify_dict attributes with
      | (attributes', Some e) => (attributes', previous', Raise e)
      | (attributes', None) =>
        (attributes', previous',
         Ok {| js_dn := dn';
               js_change_type := change_type;
               js_old_attributes := PDict previous';
               js_new_attributes := PDict attributes' |})
      end
    end
  end.

(** [post_change], lines 91 to 103: returns its two dict arguments as it
    leaves them, for the caller to store where the object is shared. An
    exception of [requests.put] is caught and printed, so the request is
    logged and the call returns either way. *)
Definition post_change (dn : pyval) (attributes previous_attributes : dict)
    (change_type : string) : machine -> dict * dict * result bool * machine :=
  fun m =>
    let m1 := log_call {| ev_dn := dn;
                          ev_attributes := attributes;
                          ev_previous_attributes := previous_attributes;
                          ev_change_type := change_type |} m in
    match build_js dn attributes previous_attributes change_type with
    | (attributes', previous', Raise e) =>
      (attributes', previous', Raise e, m1)
    | (attributes', previous', Ok js) =>
      (attributes', previous', Ok true, log_put (pubsub_url (self m1)) js m1)
    end.

(** *** The callbacks *)

Definition store (uuid : string) (attributes : dict) (m : machine) : machine :=
  with_self (fun c => set_changedb (od_set uuid attributes (changedb c)) c) m.

Definition syncrepl_get_cookie : M (option string) :=
  gets (fun m => cookie (self m)).

Definition syncrepl_set_cookie (k : string) : M unit :=
  update (with_self (set_cookie (Some k))).

(** Lines 49 to 54: the classification of an entry and the map that is
    captured as [previous_attributes]. *)
Definition classify (uuid : string) (db : odict dict) : string * dict :=
  match od_get uuid db with
  | Some stored => ("modify", stored)
  | None => ("add", [])
  end.

(** [syncrepl_entry], lines 48 to 59. *)
Definition syncrepl_entry (dn : text) (attributes : dict) (uuid : string)
  : M unit :=
  fun m =>
    let (change_type, previous_attributes) :=
      classify uuid (changedb (self m)) in
    let attributes := od_set "dn" (PStr dn) attributes in
    let m := store uuid attributes m in
    if sync_done (self m) then
      match post_change (PStr dn) attributes previous_attributes
              change_type m with
      | (attributes', _, r, m') =>
        (rmap (fun _ => tt) r, store uuid attributes' m')
      end
    else (Ok tt, m).

(** The body of the loop of [syncrepl_delete]. *)
Definition delete_one (uuid : string) : M unit :=
  fun m =>
    match od_item uuid (changedb (self m)) with
    | Raise e => (Raise e, m)
    | Ok stored =>
      match od_item "dn" stored with
      | Raise e => (Raise e, m)
      | Ok dn =>
        match post_change dn [] stored "delete" m with
        | (_, stored', r, m') =>
          let m' := store uuid stored' m' in
          match r with
          | Raise e => (Raise e, m')
          | Ok _ =>
            (Ok tt,
             with_self (fun c => set_changedb (od_del uuid (changedb c)) c) m')
          end
        end
      end
    end.

(** [syncrepl_delete], lines 61 to 67: the identifiers are filtered against
    [changedb] once, before the loop. *)
Definition syncrepl_delete (uuids : list string) : M unit :=
  fun m =>
    let uuids :=
      filter (fun uuid => od_mem uuid (changedb (self m))) uuids in
    for_each delete_one uuids m.

(** [syncrepl_present], lines 69 to 84; [uuids] is [None] for the end
    marker of the presence phase. *)
Definition syncrepl_present (uuids : option (list string))
    (refreshDeletes : bool) : M unit :=
  match uuids with
  | None =>
    (if negb refreshDeletes then
       fun m =>
         let deleted_entries :=
           filter (fun uuid =>
                     negb (od_mem uuid (presentUUIDs (self m)))
                     && negb (String.eqb uuid "ldap_cookie"))
                  (od_keys (changedb (self m))) in
         syncrepl_delete deleted_entries m
     else ret tt) ;;;
    update (with_self (set_presentUUIDs []))
  | Some uuids =>
    if refreshDeletes then syncrepl_delete uuids
    else
      for_each (fun uuid =>
                  update (with_self (fun c =>
                    set_presentUUIDs (od_set uuid true (presentUUIDs c)) c)))
               uuids
  end.

(** [syncrepl_refreshdone], lines 86 to 88. *)
Definition syncrepl_refreshdone : M unit :=
  update (with_self (set_sync_done true)).

Definition set_pubsub_url (url : string) : M unit :=
  update (with_self (set_url url)).

(** The callbacks as the directory client invokes them. *)
Inductive callback : Type :=
| OnEntry (dn : text) (attributes : dict) (uuid : string)
| OnDelete (uuids : list string)
| OnPresent (uuids : option (list string)) (refreshDeletes : bool)
| OnRefreshDone
| OnSetCookie (k : string).

Definition dispatch (cb : callback) : M unit :=
  match cb with
  | OnEntry dn attributes uuid => syncrepl_entry dn attributes uuid
  | OnDelete uuids => syncrepl_delete uuids
  | OnPresent uuids refreshDeletes => syncrepl_present uuids refreshDeletes
  | OnRefreshDone => syncrepl_refreshdone
  | OnSetCookie k => syncrepl_set_cookie k
  end.

Definition run (cbs : list callback) : M unit := for_each dispatch cbs.

(** ** The supervisor: [main]

    The directory client, the network and the user are the environment of
    [main]. A run is driven by a script: one [attempt] per iteration of the
    outer loop, giving what the constructor, [simple_bind_s],
    [syncrepl_search] and the successive [syncrepl_poll] calls do. *)

(** The dict that [yaml.safe_load] hands to [main]; a key may be missing. *)
Record config : Type := {
  ldapurl : option string;
  pubsuburl : option string
}.

(** What [main] reads from the object that [ldapurl.LDAPUrl] builds; these
    values go into the calls of the directory client, whose outcomes the
    script gives. *)
Record LDAPUrl : Type := {
  initializeUrl : string;
  who : option string;
  cred : option string
}.

(** One call of [syncrepl_poll]: the callbacks it invokes, then what it
    returns or raises. An exception of a callback leaves the call at once. *)
Record poll_step : Type := {
  delivered : list callback;
  returns : result bool
}.

Record attempt : Type := {
  constructed : result unit;
  bound : result unit;
  searching : result N;
  polls : list poll_step
}.

Inductive outcome : Type :=
| Exited (status : N)   (* [sys.exit(status)] *)
| Returned              (* [main] returned *)
| Uncaught (e : exn)    (* an exception left [main] *)
| Running.              (* the loop goes on: the script is used up *)

Inductive loop_end : Type :=
| Exhausted             (* [syncrepl_poll] returned a false value *)
| Raised (e : exn)
| Blocked.              (* the script is used up *)

(** [while ldap_connection.syncrepl_poll(all = 1, msgid = ldap_search): pass] *)
Fixpoint poll_loop (steps : list poll_step) (m : machine)
  : loop_end * machine :=
  match steps with
  | [] => (Blocked, m)
  | s :: rest =>
    match run (delivered s) m with
    | (Raise e, m') => (Raised e, m')
    | (Ok _, m') =>
      match returns s with
      | Raise e => (Raised e, m')
      | Ok true => poll_loop rest m'
      | Ok false => (Exhausted, m')
      end
    end
  end.

(** [ldap_connection = SyncReplClient(...)] and the optional
    [set_pubsub_url]; [config.get("pubsuburl")] is false for a missing key
    and for the empty string. *)
Definition connect (cfg : config) (m : machine) : machine :=
  let m := with_self (fun _ => new_client) m in
  match pubsuburl cfg with
  | Some url =>
    if String.eqb url "" then m else snd (set_pubsub_url url m)
  | None => m
  end.

Definition backoff : N := 5.

(** What one pass through the body of [while True] leads to. *)
Inductive next : Type :=
| Continue              (* back to the head of the loop *)
| Stop (o : outcome).

(** The body of [while True]. *)
Definition iteration (cfg : config) (a : attempt) (m : machine)
  : next * machine :=
  match constructed a with
  | Raise e => (Stop (Uncaught e), m)
  | Ok _ =>
    let m := connect cfg m in
    match bound a with
    | Raise INVALID_CREDENTIALS => (Stop (Exited 1), m)
    | Raise SERVER_DOWN => (Continue, log_sleep backoff m)
    | Raise e => (Stop (Uncaught e), m)
    | Ok _ =>
      match searching a with
      | Raise e => (Stop (Uncaught e), m)
      | Ok _ =>
        match poll_loop (polls a) m with
        | (Blocked, m') => (Stop Running, m')
        | (Exhausted, m') => (Continue, m')
        | (Raised KeyboardInterrupt, m') => (Stop Returned, m')
        | (Raised e, m') =>
          if is_Exception e then (Continue, log_sleep backoff m')
          else (Stop (Uncaught e), m')
        end
      end
    end
  end.

(** The loop [while True] of [main], lines 131 to 168, along a script. *)
Fixpoint main_loop (cfg : config) (script : list attempt) (m : machine)
  : outcome * machine :=
  match script with
  | [] => (Running, m)
  | a :: rest =>
    match iteration cfg a m with
    | (Continue, m') => main_loop cfg rest m'
    | (Stop o, m') => (o, m')
    end
  end.

(** [main], lines 129 to 168. Line 130 comes before the loop and inside no
    [try]: [config['ldapurl']] raises [KeyError] when the key is missing, and
    [ldapurl.LDAPUrl], the parser of the client library, given here as
    [parse], raises on a string that is no LDAP URL; either exception leaves
    [main] before anything else happens. *)
Definition main (cfg : config) (parse : string -> result LDAPUrl)
    (script : list attempt) (m : machine) : outcome * machine :=
  match ldapurl cfg with
  | None => (Uncaught KeyError, m)
  | Some s =>
    match parse s with
    | Raise e => (Uncaught e, m)
    | Ok ldap_url => main_loop cfg script m
    end
  end.



(** ** Predicates of the statements *)

(** A binary value somewhere in a value, at any depth. *)
Fixpoint contains_bytes (v : pyval) : bool :=
  match v with
  | PBytes _ => true
  | PStr _ => false
  | PList l => existsb contains_bytes l
  | PDict d => existsb (fun kv => contains_bytes (snd kv)) d
  end.

(** No dict inside: bytes, text, and lists of such values. *)
Fixpoint dict_free (v : pyval) : bool :=
  match v with
  | PBytes _ | PStr _ => true
  | PList l => forallb dict_free l
  | PDict _ => false
  end.

(** An attribute map as the directory client delivers it, possibly with the
    ['dn'] text added: every value is free of dicts. *)
Definition attribute_map (d : dict) : bool :=
  forallb (fun kv => dict_free (snd kv)) d.

(** The binary values that [stringify] decodes when it meets [v] as a
    dict value or as a list element. *)
Fixpoint reached_member (v : pyval) : list (list byte) :=
  match v with
  | PBytes b => [b]
  | PList l => flat_map reached_member l
  | _ => []
  end.

(** The binary values that [stringify obj] decodes. *)
Definition reached_bytes (obj : pyval) : list (list byte) :=
  match obj with
  | PBytes b => [b]
  | PStr _ => []
  | PList l => flat_map reached_member l
  | PDict d => flat_map (fun kv => reached_member (snd kv)) d
  end.

Definition decodable (obj : pyval) : bool :=
  forallb Utf8.valid (reached_bytes obj).

(** The outcome of a conversion, read off a boolean: a value, or the
    decoding error. *)
Definition outcome_is {A} (ok : bool) (r : result A) : Prop :=
  if ok then exists a, r = Ok a else r = Raise UnicodeDecodeError.

(** A second conversion leaves the result of the first as it is. *)
Definition fixed (v : pyval) : Prop :=
  forall r, stringify v = Ok r -> stringify r = Ok r.

(** The stored map records a distinguished name, a text under ['dn']. *)
Definition has_dn (d : dict) : bool :=
  match od_get "dn" d with
  | Some (PStr _) => true
  | _ => false
  end.

Definition dn_recorded (db : odict dict) : bool :=
  forallb (fun kv => has_dn (snd kv)) db.

(** The event that [syncrepl_delete] hands to [post_change] for a stored
    map. *)
Definition delete_event (stored : dict) : ChangeEvent :=
  {| ev_dn := match od_get "dn" stored with Some dn => dn | None => PStr [] end;
     ev_attributes := [];
     ev_previous_attributes := stored;
     ev_change_type := "delete" |}.

(** An identifier that [syncrepl_delete] can process to the end: unknown,
    or stored with a recorded name and a decodable map. *)
Definition deletable (db : odict dict) (uuid : string) : bool :=
  match od_get uuid db with
  | None => true
  | Some stored => has_dn stored && decodable (PDict stored)
  end.

(** The stored maps of the known identifiers among [uuids], in order. *)
Definition known_maps (db : odict dict) (uuids : list string) : list dict :=
  flat_map (fun uuid =>
              match od_get uuid db with Some d => [d] | None => [] end) uuids.

(** The request that [post_change] sends for the deletion of a stored map. *)
Definition delete_payload (stored : dict) : payload :=
  {| js_dn := ev_dn (delete_event stored);
     js_change_type := "delete";
     js_old_attributes := PDict (fst (stringify_dict stored));
     js_new_attributes := PDict [] |}.

(** [del db[uuid]] for each identifier in turn. *)
Definition del_all (uuids : list string) (db : odict dict) : odict dict :=
  fold_left (fun db uuid => od_del uuid db) uuids db.

(** The machine after the deletion of the known identifiers [uuids]. *)
Definition after_delete (uuids : list string) (m : machine) : machine :=
  let db := changedb (self m) in
  {| self := set_changedb (del_all uuids db) (self m);
     calls := calls m ++ map delete_event (known_maps db uuids);
     puts := puts m ++ map (fun d => (pubsub_url (self m), delete_payload d))
                           (known_maps db uuids);
     slept := slept m |}.


(** The callbacks that store or mark without a deletion: an entry, a batch
    of present identifiers, a cookie. *)
Definition silent (cb : callback) : bool :=
  match cb with
  | OnEntry _ _ _ => true
  | OnPresent (Some _) false => true
  | OnSetCookie _ => true
  | _ => false
  end.


(** One call of [syncrepl_entry]: the name, the attribute map, the
    identifier. *)
Definition entry_call : Type := text * dict * string.

Definition entry_uuid (c : entry_call) : string := snd c.

Definition entries (cs : list entry_call) : list callback :=
  map (fun c : entry_call => let '(dn, a, u) := c in OnEntry dn a u) cs.

(** The attribute map of a call as line 55 leaves it: the name is written
    into the map itself, under ['dn']. *)
Definition stored_map (c : entry_call) : dict :=
  let '(dn, a, _) := c in od_set "dn" (PStr dn) a.

(** The map of the latest call for an identifier, if there is one. *)
Fixpoint latest (cs : list entry_call) (uuid : string) : option dict :=
  match cs with
  | [] => None
  | c :: rest =>
    match latest rest uuid with
    | Some d => Some d
    | None =>
      if String.eqb uuid (entry_uuid c) then Some (stored_map c) else None
    end
  end.

(** The event that [syncrepl_entry] hands to [post_change] when changes are
    published. *)
Definition entry_event (dn : text) (attributes : dict) (uuid : string)
    (db : odict dict) : ChangeEvent :=
  {| ev_dn := PStr dn;
     ev_attributes := od_set "dn" (PStr dn) attributes;
     ev_previous_attributes := snd (classify uuid db);
     ev_change_type := fst (classify uuid db) |}.

(** A change names its entry: the name is a text; an addition and a
    modification carry it under ['dn'] in the new map, a deletion in the
    previous map; the previous map of an addition and the new map of a
    deletion are empty; the previous map of a modification has a name of
    its own, the one written when that map was stored. *)
Definition names_entry (change_type : string) (dn : pyval)
    (attributes previous : dict) : Prop :=
  (exists s, dn = PStr s) /\
  ((change_type = "add" /\
    od_get "dn" attributes = Some dn /\ previous = []) \/
   (change_type = "modify" /\
    od_get "dn" attributes = Some dn /\ has_dn previous = true) \/
   (change_type = "delete" /\
    attributes = [] /\ od_get "dn" previous = Some dn)).

Definition event_names_entry (e : ChangeEvent) : Prop :=
  names_entry (ev_change_type e) (ev_dn e)
              (ev_attributes e) (ev_previous_attributes e).

Definition payload_names_entry (js : payload) : Prop :=
  exists new old,
    js_new_attributes js = PDict new /\
    js_old_attributes js = PDict old /\
    names_entry (js_change_type js) (js_dn js) new old.

(** Every stored map records a name, and every change handed to
    [post_change] or sent names its entry. *)
Definition named (m : machine) : Prop :=
  dn_recorded (changedb (self m)) = true /\
  Forall event_names_entry (calls m) /\
  Forall (fun p => payload_names_entry (snd p)) (puts m).

(** The identifier that a callback stores a map for, if it stores one. *)
Definition entry_target (cb : callback) : option string :=
  match cb with
  | OnEntry _ _ uuid => Some uuid
  | _ => None
  end.

(** From [m] to [m'] no map appears under an identifier other than [skip],
    and the maps that stay keep the name they record. *)
Definition keeps_names (skip : option string) (m m' : machine) : Prop :=
  forall u stored',
    Some u <> skip ->
    od_get u (changedb (self m')) = Some stored' ->
    exists stored,
      od_get u (changedb (self m)) = Some stored /\
      forall s, od_get "dn" stored = Some (PStr s) ->
                od_get "dn" stored' = Some (PStr s).

(** ** Sample data *)

(** [{'cn': [b'alice']}] *)
Definition alice_attributes : dict :=
  [("cn", PList [PBytes [x61; x6c; x69; x63; x65]])].

(** [{'jpegPhoto': [b'\xff\xd8']}], the first bytes of a JPEG file. *)
Definition photo_attributes : dict :=
  [("jpegPhoto", PList [PBytes [xff; xd8]])].

(** A session in its refresh phase that has received one entry. *)
Definition alice_state : machine :=
  snd (run [OnEntry (txt "cn=alice") alice_attributes "u1"] boot).

Definition photo_state : machine :=
  snd (run [OnEntry (txt "cn=alice") photo_attributes "u1"] boot).

(** A session in its refresh phase that holds three entries, the third one
    under the identifier and with the attributes given. *)
Definition three_entries (uuid : string) (attributes : dict) : machine :=
  snd (run [OnEntry (txt "cn=a") alice_attributes "A";
            OnEntry (txt "cn=b") alice_attributes "B";
            OnEntry (txt "cn=c") attributes uuid] boot).

(** A presence cycle that reports [A] and [B], then its end marker. *)
Definition presence_cycle (A B : string) : list callback :=
  [OnPresent (Some [A; B]) false; OnPresent None false].

Definition sample_config : config :=
  {| ldapurl := Some "ldap://ldap.example.org/dc=example,dc=org";
     pubsuburl := None |}.


(** A parser that takes every string for an LDAP URL without credentials,
    and one that takes none. *)
Definition parse_any (s : string) : result LDAPUrl :=
  Ok {| initializeUrl := s; who := None; cred := None |}.







(** ** Predicates of the further properties *)

(** Every byte is below 0x80. *)
Definition ascii_bytes (b : list byte) : bool :=
  forallb (fun c => (Byte.to_N c <? 0x80)%N) b.

(** A Unicode scalar value: at most U+10FFFF and no surrogate. *)
Definition scalar_value (cp : N) : bool :=
  (cp <=? 0x10FFFF)%N && negb (Utf8.between 0xD800 0xDFFF cp).

(** The shape that a conversion keeps: a list keeps its length, a dict its
    keys in their order. *)
Definition same_shape (v r : pyval) : Prop :=
  match v, r with
  | PList l, PList l' => List.length l' = List.length l
  | PDict d, PDict d' => od_keys d' = od_keys d
  | PBytes _, PStr _ => True
  | PStr s, PStr s' => s' = s
  | _, _ => False
  end.

(** The payload that [post_change] builds for an event. *)
Definition payload_of (e : ChangeEvent) : result payload :=
  snd (build_js (ev_dn e) (ev_attributes e) (ev_previous_attributes e)
                (ev_change_type e)).

(** Every event handed to [post_change] was converted and sent, once and in
    order. *)
Definition logs_agree (m : machine) : Prop :=
  map payload_of (calls m) = map (fun p => Ok (snd p)) (puts m).

(** The logs after a callback: in agreement when it returned; when it
    raised, in agreement, or with one last event that could not be
    converted and was not sent. *)
Definition logs_after (r : result unit) (m : machine) : Prop :=
  match r with
  | Ok _ => logs_agree m
  | Raise _ =>
    logs_agree m \/
    exists e, map payload_of (calls m)
              = map (fun p => Ok (snd p)) (puts m) ++ [Raise e]
  end.

(** The request that [post_change] sends for an entry. *)
Definition entry_payload (dn : text) (attributes : dict) (uuid : string)
    (db : odict dict) : payload :=
  {| js_dn := PStr dn;
     js_change_type := fst (classify uuid db);
     js_old_attributes := PDict (fst (stringify_dict (snd (classify uuid db))));
     js_new_attributes :=
       PDict (fst (stringify_dict (od_set "dn" (PStr dn) attributes))) |}.

(** The machine after an entry was stored and published. *)
Definition after_entry (dn : text) (attributes : dict) (uuid : string)
    (m : machine) : machine :=
  let db := changedb (self m) in
  {| self :=
       set_changedb
         (od_set uuid (fst (stringify_dict (od_set "dn" (PStr dn) attributes)))
                 db)
         (self m);
     calls := calls m ++ [entry_event dn attributes uuid db];
     puts := puts m
             ++ [(pubsub_url (self m), entry_payload dn attributes uuid db)];
     slept := slept m |}.

Definition all_decodable (db : odict dict) : bool :=
  forallb (fun kv => decodable (PDict (snd kv))) db.

(** The kinds of a sequence of entries when a set of identifiers is known
    already. *)
Fixpoint entry_kinds (known : list string) (cs : list entry_call)
  : list string :=
  match cs with
  | [] => []
  | c :: rest =>
    (if existsb (String.eqb (entry_uuid c)) known then "modify" else "add")
    :: entry_kinds (entry_uuid c :: known) rest
  end.

(** The identifiers that the end marker of a presence phase takes for
    deleted (lines 72 to 76). *)
Definition inferred_deletions (c : SyncReplClient) : list string :=
  filter (fun uuid => negb (od_mem uuid (presentUUIDs c))
                      && negb (String.eqb uuid "ldap_cookie"))
         (od_keys (changedb c)).

(** The sink of a session: the configured URL, or the default of
    [__init__]. *)
Definition sink (cfg : config) : string :=
  match pubsuburl cfg with
  | Some url => if String.eqb url "" then pubsub_url new_client else url
  | None => pubsub_url new_client
  end.

(** From [m] to [m'] the requests sent all went to the sink of [m], and
    the sink stayed. *)
Definition sent_to_sink (m m' : machine) : Prop :=
  pubsub_url (self m') = pubsub_url (self m) /\
  exists new, puts m' = puts m ++ new /\
              Forall (fun p => fst p = pubsub_url (self m)) new.

(** The fields of the client that no callback of the directory changes,
    but for [syncrepl_refreshdone] and [syncrepl_set_cookie]. *)
Definition same_settings (m m' : machine) : Prop :=
  sync_done (self m') = sync_done (self m) /\
  cookie (self m') = cookie (self m) /\
  pubsub_url (self m') = pubsub_url (self m).

(** The search comes to an end: the refresh delivers an entry, then
    [syncrepl_poll] returns a false value. *)
Definition attempt_exhausted : attempt :=
  {| constructed := Ok tt; bound := Ok tt; searching := Ok 1%N;
     polls := [ {| delivered :=
                     [OnEntry (txt "cn=alice") alice_attributes "u1"];
                   returns := Ok false |} ] |}.

(** Every callback that the polls deliver is an entry, a batch of present
    identifiers or a cookie. *)
Definition silent_polls (steps : list poll_step) : bool :=
  forallb (fun s => forallb silent (delivered s)) steps.

(** A callback as the directory client issues it: the attribute map of an
    entry binds names to values without dicts inside. *)
Definition ldap_shaped (cb : callback) : bool :=
  match cb with
  | OnEntry _ attributes _ => attribute_map attributes
  | _ => true
  end.

(** No binary value anywhere in a payload. *)
Definition payload_text (js : payload) : bool :=
  negb (contains_bytes (js_dn js))
  && negb (contains_bytes (js_old_attributes js))
  && negb (contains_bytes (js_new_attributes js)).

(** Every stored map has the shape of an attribute map, and no request
    sent carries a binary value. *)
Definition text_only (m : machine) : Prop :=
  forallb (fun kv => attribute_map (snd kv)) (changedb (self m)) = true /\
  Forall (fun p => payload_text (snd p) = true) (puts m).

(** The session after a sequence of [syncrepl_entry] calls, each made
    whatever the one before did, returned or raised. *)
Fixpoint after_entries (cs : list entry_call) (m : machine) : machine :=
  match cs with
  | [] => m
  | (dn, a, u) :: rest => after_entries rest (snd (syncrepl_entry dn a u m))
  end.

(** The name of the latest [syncrepl_entry] for an identifier among some
    callbacks, if there is one. *)
Fixpoint last_name (cbs : list callback) (uuid : string) : option text :=
  match cbs with
  | [] => None
  | cb :: rest =>
    match last_name rest uuid with
    | Some dn => Some dn
    | None =>
      match cb with
      | OnEntry dn _ k => if String.eqb uuid k then Some dn else None
      | _ => None
      end
    end
  end.

(** * Properties *)

(** ** The decoder on small inputs *)

Example decode_ascii :
  stringify (PBytes [x63; x6e]) = Ok (PStr (txt "cn")).
Proof. reflexivity. Qed.

Example decode_two_byte :
  stringify (PBytes [xc3; xa9]) = Ok (PStr [0xE9%N]).
Proof. reflexivity. Qed.

Example decode_overlong :
  stringify (PBytes [xc0; x80]) = Raise UnicodeDecodeError.
Proof. reflexivity. Qed.

Example decode_surrogate :
  stringify (PBytes [xed; xa0; x80]) = Raise UnicodeDecodeError.
Proof. reflexivity. Qed.

Example decode_truncated :
  stringify (PList [PBytes [xe2; x82]]) = Raise UnicodeDecodeError.
Proof. reflexivity. Qed.

Example decode_euro_in_attribute :
  stringify (PDict [("price", PList [PBytes [xe2; x82; xac]])])
  = Ok (PDict [("price", PList [PStr [0x20AC%N]])]).
Proof. reflexivity. Qed.

(** ** stringify *)

Lemma stringify_list_eq (l : list pyval) :
  stringify (PList l) = rmap PList (list_loop convert_member l).
Proof. reflexivity. Qed.

Lemma stringify_dict_eq (d : dict) :
  stringify (PDict d) =
  match stringify_dict d with
  | (d', None) => Ok (PDict d')
  | (_, Some e) => Raise e
  end.
Proof. reflexivity. Qed.

Lemma str_utf8_cases (b : list byte) :
  if Utf8.valid b then exists t, str_utf8 b = Ok t
  else str_utf8 b = Raise UnicodeDecodeError.
Proof.
  unfold Utf8.valid, str_utf8.
  destruct (Utf8.decode b) as [t|]; [exists t|]; reflexivity.
Qed.

(** A list argument comes back as a list. *)
Lemma stringify_list_shape (l : list pyval) (r : pyval) :
  stringify (PList l) = Ok r -> exists l', r = PList l'.
Proof.
  rewrite stringify_list_eq. unfold rmap, rbind.
  destruct (list_loop convert_member l) as [l'|e]; intros H; inversion H.
  now exists l'.
Qed.

Section Fixed.

Lemma convert_member_fixed (v v' : pyval) :
  fixed v -> convert_member v = Ok v' -> convert_member v' = Ok v'.
Proof.
  intros IH H. destruct v as [b|s|l|d]; simpl in H.
  - unfold rmap, rbind in H. destruct (str_utf8 b); inversion H.
    reflexivity.
  - inversion H. reflexivity.
  - destruct (stringify_list_shape _ _ H) as [l' ->].
    apply (IH _ H).
  - inversion H. reflexivity.
Qed.

Lemma list_loop_fixed (l : list pyval) :
  Forall fixed l ->
  forall l', list_loop convert_member l = Ok l' ->
             list_loop convert_member l' = Ok l'.
Proof.
  induction 1 as [|v l Hv Hl IH]; intros l' H; simpl in H.
  - inversion H. reflexivity.
  - destruct (convert_member v) as [v'|e] eqn:Ev; simpl in H;
      [|discriminate].
    destruct (list_loop convert_member l) as [l1|e] eqn:El; simpl in H;
      [|discriminate].
    inversion H; subst l'. simpl.
    rewrite (convert_member_fixed _ _ Hv Ev). simpl.
    rewrite (IH _ eq_refl). reflexivity.
Qed.

Lemma dict_loop_fixed (d : dict) :
  Forall (fun kv => fixed (snd kv)) d ->
  forall d', dict_loop convert_member d = (d', None) ->
             dict_loop convert_member d' = (d', None).
Proof.
  induction 1 as [|[k v] d Hv Hd IH]; intros d' H; simpl in H.
  - inversion H. reflexivity.
  - simpl in Hv.
    destruct (convert_member v) as [v'|e] eqn:Ev; [|discriminate].
    destruct (dict_loop convert_member d) as [d1 o] eqn:Ed.
    inversion H; subst d' o. simpl.
    rewrite (convert_member_fixed _ _ Hv Ev).
    rewrite (IH _ eq_refl). reflexivity.
Qed.

Lemma stringify_fixed (obj : pyval) : fixed obj.
Proof.
  induction obj as [b|s|l IH|d IH] using pyval_nested_ind; intros r H.
  - simpl in H. unfold rmap, rbind in H.
    destruct (str_utf8 b); inversion H. reflexivity.
  - inversion H. reflexivity.
  - rewrite stringify_list_eq in H. unfold rmap, rbind in H.
    destruct (list_loop convert_member l) as [l'|e] eqn:El; inversion H.
    rewrite stringify_list_eq, (list_loop_fixed _ IH _ El). reflexivity.
  - rewrite stringify_dict_eq in H. unfold stringify_dict in H.
    destruct (dict_loop convert_member d) as [d' [e|]] eqn:Ed; inversion H.
    rewrite stringify_dict_eq. unfold stringify_dict.
    rewrite (dict_loop_fixed _ IH _ Ed). reflexivity.
Qed.
End Fixed.

(** In place, too: a dict that one call has converted is left as it is by
    the next. *)
Lemma stringify_dict_fixed (d d' : dict) :
  stringify_dict d = (d', None) -> stringify_dict d' = (d', None).
Proof.
  intros H. unfold stringify_dict in *. apply dict_loop_fixed with (d := d).
  - apply Forall_forall. intros kv _. apply stringify_fixed.
  - exact H.
Qed.

(** C9. The conversion is idempotent: for every value built from nested
    dicts, lists, bytes and text, converting the converted value gives the
    result of the first conversion; when the first conversion raises, so does
    the composition. *)
Theorem stringify_idempotent (obj : pyval) :
  rbind (stringify obj) stringify = stringify obj.
Proof.
  destruct (stringify obj) as [r|e] eqn:E; simpl.
  - apply (stringify_fixed obj r E).
  - reflexivity.
Qed.

(** *** When the conversion raises *)

Lemma forallb_flat_map {A B} (p : B -> bool) (f : A -> list B) (l : list A) :
  forallb p (flat_map f l) = forallb (fun a => forallb p (f a)) l.
Proof.
  induction l as [|a l IH]; simpl; [reflexivity|].
  now rewrite forallb_app, IH.
Qed.

Lemma convert_member_outcome (v : pyval) :
  outcome_is (decodable v) (stringify v) ->
  outcome_is (forallb Utf8.valid (reached_member v)) (convert_member v).
Proof.
  destruct v as [b|s|l|d]; intros H.
  - exact H.
  - simpl. now exists (PStr s).
  - exact H.
  - simpl. now exists (PDict d).
Qed.

Lemma list_loop_outcome (l : list pyval) :
  Forall (fun v => outcome_is (decodable v) (stringify v)) l ->
  outcome_is (forallb (fun v => forallb Utf8.valid (reached_member v)) l)
             (list_loop convert_member l).
Proof.
  induction 1 as [|v l Hv Hl IH]; simpl.
  - now exists [].
  - apply convert_member_outcome in Hv.
    destruct (forallb Utf8.valid (reached_member v)); simpl in *.
    + destruct Hv as [v' ->]. simpl.
      destruct (forallb _ l); simpl in *.
      * destruct IH as [l' ->]. now exists (v' :: l').
      * now rewrite IH.
    + now rewrite Hv.
Qed.

Lemma dict_loop_outcome (d : dict) :
  Forall (fun kv => outcome_is (decodable (snd kv)) (stringify (snd kv))) d ->
  if forallb (fun kv => forallb Utf8.valid (reached_member (snd kv))) d
  then exists d', dict_loop convert_member d = (d', None)
  else exists d', dict_loop convert_member d = (d', Some UnicodeDecodeError).
Proof.
  induction 1 as [|[k v] d Hv Hd IH]; simpl.
  - now exists [].
  - simpl in Hv. apply convert_member_outcome in Hv.
    destruct (forallb Utf8.valid (reached_member v)); simpl in *.
    + destruct Hv as [v' ->].
      destruct (forallb _ d); destruct IH as [d' ->]; eexists; reflexivity.
    + rewrite Hv. eexists; reflexivity.
Qed.

Lemma stringify_outcome (obj : pyval) :
  outcome_is (decodable obj) (stringify obj).
Proof.
  induction obj as [b|s|l IH|d IH] using pyval_nested_ind.
  - unfold decodable; simpl. rewrite andb_true_r.
    pose proof (str_utf8_cases b) as H.
    destruct (Utf8.valid b); simpl.
    + destruct H as [t ->]. now exists (PStr t).
    + now rewrite H.
  - now exists (PStr s).
  - unfold decodable; simpl reached_bytes. rewrite forallb_flat_map.
    rewrite stringify_list_eq.
    pose proof (list_loop_outcome l IH) as H.
    destruct (forallb _ l); simpl in *.
    + destruct H as [l' ->]. now exists (PList l').
    + now rewrite H.
  - unfold decodable; simpl reached_bytes. rewrite forallb_flat_map.
    rewrite stringify_dict_eq. unfold stringify_dict.
    pose proof (dict_loop_outcome d IH) as H.
    destruct (forallb _ d); simpl in *; destruct H as [d' ->].
    + now exists (PDict d').
    + reflexivity.
Qed.

Lemma stringify_dict_outcome (d : dict) :
  if decodable (PDict d)
  then exists d', stringify_dict d = (d', None)
  else exists d', stringify_dict d = (d', Some UnicodeDecodeError).
Proof.
  unfold decodable; simpl reached_bytes. rewrite forallb_flat_map.
  apply dict_loop_outcome, Forall_forall. intros kv _.
  apply stringify_outcome.
Qed.

(** The payload is built exactly when the three arguments are decodable. *)
Lemma build_js_outcome (dn : pyval) (attributes previous : dict)
    (change_type : string) :
  outcome_is (decodable dn && decodable (PDict previous)
              && decodable (PDict attributes))
             (snd (build_js dn attributes previous change_type)).
Proof.
  unfold build_js.
  pose proof (stringify_outcome dn) as Hdn.
  pose proof (stringify_dict_outcome previous) as Hp.
  pose proof (stringify_dict_outcome attributes) as Ha.
  destruct (decodable dn); simpl in *.
  - destruct Hdn as [dn' ->].
    destruct (decodable (PDict previous)); simpl in *;
      destruct Hp as [p' ->]; [|reflexivity].
    destruct (decodable (PDict attributes)); simpl in *;
      destruct Ha as [a' ->]; [eexists|]; reflexivity.
  - now rewrite Hdn.
Qed.

(** C7, as the code has it. The conversion is strict: [stringify obj]
    returns a value exactly when every binary value it decodes is
    well-formed UTF-8, and raises [UnicodeDecodeError] otherwise; the same
    holds for the payload that [post_change] builds from a name and two
    attribute maps, where the exception is not caught. *)
Theorem stringify_succeeds_iff_decodable :
  (forall obj, outcome_is (decodable obj) (stringify obj)) /\
  (forall dn attributes previous change_type,
      outcome_is (decodable dn && decodable (PDict previous)
                  && decodable (PDict attributes))
                 (snd (build_js dn attributes previous change_type))) /\
  (forall dn attributes previous change_type m,
      decodable dn && decodable (PDict previous)
      && decodable (PDict attributes) = false ->
      let '(_, _, r, m') :=
        post_change dn attributes previous change_type m in
      r = Raise UnicodeDecodeError /\ puts m' = puts m).
Proof.
  split; [exact stringify_outcome|].
  split; [exact build_js_outcome|].
  intros dn a p ct m H.
  pose proof (build_js_outcome dn a p ct) as Hjs. rewrite H in Hjs.
  unfold post_change.
  destruct (build_js dn a p ct) as [[a' p'] r]. simpl in Hjs. subst r.
  split; reflexivity.
Qed.

Lemma stringify_succeeds_iff_decodable_witness :
  let '(_, _, r, m') :=
    post_change (PStr (txt "cn=a"))
      [("jpegPhoto", PList [PBytes [xff; xd8]])] [] "add" boot in
  r = Raise UnicodeDecodeError /\ puts m' = puts boot.
Proof.
  apply (proj2 (proj2 stringify_succeeds_iff_decodable)
           (PStr (txt "cn=a")) [("jpegPhoto", PList [PBytes [xff; xd8]])]
           [] "add" boot).
  reflexivity.
Defined.

(** C7, as stated, fails: the byte 0xFF is no UTF-8 sequence, and its
    conversion raises instead of producing a text, at the top level, inside
    an attribute map, and in the payload of a change. *)
Lemma stringify_raises_on_invalid_utf8 :
  stringify (PBytes [xff]) = Raise UnicodeDecodeError /\
  stringify (PDict [("jpegPhoto", PList [PBytes [xff; xd8]])])
  = Raise UnicodeDecodeError /\
  snd (build_js (PStr (txt "cn=a"))
         [("jpegPhoto", PList [PBytes [xff; xd8]]); ("dn", PStr (txt "cn=a"))]
         [] "add")
  = Raise UnicodeDecodeError.
Proof. repeat split; reflexivity. Qed.

(** *** What the conversion reaches *)

Lemma convert_member_no_bytes (v v' : pyval) :
  (dict_free v = true ->
   forall r, stringify v = Ok r -> contains_bytes r = false) ->
  dict_free v = true -> convert_member v = Ok v' ->
  contains_bytes v' = false.
Proof.
  intros IH Hf H. destruct v as [b|s|l|d]; simpl in H.
  - unfold rmap, rbind in H. destruct (str_utf8 b); inversion H.
    reflexivity.
  - inversion H. reflexivity.
  - apply (IH Hf _ H).
  - discriminate Hf.
Qed.

Lemma list_loop_no_bytes (l : list pyval) :
  Forall (fun v => dict_free v = true ->
                   forall r, stringify v = Ok r -> contains_bytes r = false)
         l ->
  forallb dict_free l = true ->
  forall l', list_loop convert_member l = Ok l' ->
             existsb contains_bytes l' = false.
Proof.
  induction 1 as [|v l Hv Hl IH]; intros Hf l' H; simpl in H.
  - inversion H. reflexivity.
  - simpl in Hf. apply andb_true_iff in Hf. destruct Hf as [Hfv Hfl].
    destruct (convert_member v) as [v'|e] eqn:Ev; simpl in H; [|discriminate].
    destruct (list_loop convert_member l) as [l1|e] eqn:El; simpl in H;
      [|discriminate].
    inversion H; subst l'. simpl.
    rewrite (convert_member_no_bytes _ _ Hv Hfv Ev).
    apply (IH Hfl _ eq_refl).
Qed.

Lemma stringify_dict_free_no_bytes (v : pyval) :
  dict_free v = true ->
  forall r, stringify v = Ok r -> contains_bytes r = false.
Proof.
  induction v as [b|s|l IH|d IH] using pyval_nested_ind; intros Hf r H.
  - simpl in H. unfold rmap, rbind in H. destruct (str_utf8 b); inversion H.
    reflexivity.
  - inversion H. reflexivity.
  - rewrite stringify_list_eq in H. unfold rmap, rbind in H.
    destruct (list_loop convert_member l) as [l'|e] eqn:El; inversion H.
    simpl. apply (list_loop_no_bytes l IH Hf _ El).
  - discriminate Hf.
Qed.

(** On the maps that the program converts, attribute names bound to lists
    of values and to the name text, the conversion leaves no binary value. *)
Lemma stringify_attribute_map_no_bytes (d d' : dict) :
  attribute_map d = true ->
  stringify_dict d = (d', None) ->
  contains_bytes (PDict d') = false.
Proof.
  unfold attribute_map, stringify_dict. revert d'.
  induction d as [|[k v] d IH]; intros d' Hf H; simpl in H.
  - inversion H. reflexivity.
  - simpl in Hf. apply andb_true_iff in Hf. destruct Hf as [Hfv Hfd].
    destruct (convert_member v) as [v'|e] eqn:Ev; [|discriminate].
    destruct (dict_loop convert_member d) as [d1 o] eqn:Ed.
    inversion H; subst d' o. simpl.
    rewrite (convert_member_no_bytes v v'
               (stringify_dict_free_no_bytes v) Hfv Ev).
    apply (IH _ Hfd eq_refl).
Qed.

(** C6 fails on the code: a dict that is an element of a list, or a value
    of another dict, is passed over, and the binary values inside it come
    back unconverted. *)
Theorem stringify_leaves_bytes_in_nested_dict :
  stringify (PList [PDict [("a", PBytes [x78])]])
  = Ok (PList [PDict [("a", PBytes [x78])]]) /\
  stringify (PDict [("outer", PDict [("a", PBytes [x78])])])
  = Ok (PDict [("outer", PDict [("a", PBytes [x78])])]) /\
  contains_bytes (PList [PDict [("a", PBytes [x78])]]) = true /\
  contains_bytes (PDict [("outer", PDict [("a", PBytes [x78])])]) = true.
Proof. repeat split; reflexivity. Qed.

(** ** Dictionaries *)

Section ODictFacts.
Context {V : Type}.
Implicit Types (d : odict V) (k : string) (v : V).

Lemma od_get_set_same k v d : od_get k (od_set k v d) = Some v.
Proof.
  induction d as [|[k' v'] d IH]; simpl.
  - now rewrite String.eqb_refl.
  - destruct (String.eqb k k') eqn:E; simpl; rewrite E; [reflexivity|exact IH].
Qed.

Lemma od_get_set_other k k' v d :
  k <> k' -> od_get k' (od_set k v d) = od_get k' d.
Proof.
  intros Hne. induction d as [|[k1 v1] d IH]; simpl.
  - destruct (String.eqb k' k) eqn:E; [|reflexivity].
    apply String.eqb_eq in E. congruence.
  - destruct (String.eqb k k1) eqn:E; simpl.
    + apply String.eqb_eq in E. subst k1.
      destruct (String.eqb k' k) eqn:E'; [|reflexivity].
      apply String.eqb_eq in E'. congruence.
    + now rewrite IH.
Qed.

Lemma od_get_del_same k d : od_get k (od_del k d) = None.
Proof.
  unfold od_del. induction d as [|[k' v'] d IH]; simpl; [reflexivity|].
  destruct (String.eqb k k') eqn:E; simpl; [exact IH|].
  now rewrite E.
Qed.

Lemma od_get_del_other k k' d :
  k <> k' -> od_get k' (od_del k d) = od_get k' d.
Proof.
  intros Hne. unfold od_del.
  induction d as [|[k1 v1] d IH]; simpl; [reflexivity|].
  destruct (String.eqb k k1) eqn:E; simpl.
  - apply String.eqb_eq in E. subst k1.
    destruct (String.eqb k' k) eqn:E'; [|exact IH].
    apply String.eqb_eq in E'. congruence.
  - now rewrite IH.
Qed.

Lemma od_del_set k v d : od_del k (od_set k v d) = od_del k d.
Proof.
  unfold od_del. induction d as [|[k' v'] d IH]; simpl.
  - now rewrite String.eqb_refl.
  - destruct (String.eqb k k') eqn:E; simpl; rewrite E; simpl;
      [reflexivity|now rewrite IH].
Qed.

Lemma od_del_unknown k d : od_get k d = None -> od_del k d = d.
Proof.
  unfold od_del. induction d as [|[k' v'] d IH]; simpl; [reflexivity|].
  destruct (String.eqb k k') eqn:E; [discriminate|]. simpl.
  intros H. now rewrite IH.
Qed.

Lemma od_mem_get k d : od_mem k d = true <-> exists v, od_get k d = Some v.
Proof.
  unfold od_mem. destruct (od_get k d) as [v|].
  - split; [now exists v|reflexivity].
  - split; [discriminate|intros [v Hv]; discriminate].
Qed.

Lemma od_mem_keys k d : od_mem k d = true <-> In k (od_keys d).
Proof.
  unfold od_mem, od_keys. induction d as [|[k' v'] d IH]; simpl.
  - split; [discriminate|tauto].
  - destruct (String.eqb k k') eqn:E.
    + apply String.eqb_eq in E. subst. tauto.
    + apply String.eqb_neq in E. rewrite IH. split; [tauto|].
      intros [H|H]; [congruence|exact H].
Qed.

Lemma forallb_od_set (p : V -> bool) k v d :
  p v = true ->
  forallb (fun kv => p (snd kv)) d = true ->
  forallb (fun kv => p (snd kv)) (od_set k v d) = true.
Proof.
  intros Hv. induction d as [|[k' v'] d IH]; simpl.
  - now rewrite Hv.
  - intros H. apply andb_true_iff in H. destruct H as [H1 H2].
    destruct (String.eqb k k'); simpl.
    + now rewrite Hv, H2.
    + now rewrite H1, IH.
Qed.

Lemma forallb_od_del (p : V -> bool) k d :
  forallb (fun kv => p (snd kv)) d = true ->
  forallb (fun kv => p (snd kv)) (od_del k d) = true.
Proof.
  unfold od_del. induction d as [|[k' v'] d IH]; simpl; [reflexivity|].
  intros H. apply andb_true_iff in H. destruct H as [H1 H2].
  destruct (String.eqb k k'); simpl; [now apply IH|].
  now rewrite H1, IH.
Qed.

Lemma forallb_od_get (p : V -> bool) k v d :
  forallb (fun kv => p (snd kv)) d = true ->
  od_get k d = Some v -> p v = true.
Proof.
  induction d as [|[k' v'] d IH]; simpl; [discriminate|].
  intros H. apply andb_true_iff in H. destruct H as [H1 H2].
  destruct (String.eqb k k'); [|now apply IH].
  intros E. inversion E. now subst.
Qed.
End ODictFacts.

(** ** The delete path *)

Lemma has_dn_text (d : dict) :
  has_dn d = true -> exists s, od_get "dn" d = Some (PStr s).
Proof.
  unfold has_dn. destruct (od_get "dn" d) as [[b|s|l|d']|]; try discriminate.
  intros _. now exists s.
Qed.

Lemma known_maps_del (u : string) (db : odict dict) (ks : list string) :
  ~ In u ks -> known_maps (od_del u db) ks = known_maps db ks.
Proof.
  unfold known_maps. induction ks as [|k ks IH]; simpl; [reflexivity|].
  intros H. rewrite IH by tauto.
  rewrite od_get_del_other; [reflexivity|]. intros ->. tauto.
Qed.

Lemma after_delete_cons (u : string) (ks : list string) (m : machine) :
  ~ In u ks -> after_delete (u :: ks) m = after_delete ks (after_delete [u] m).
Proof.
  intros Hu. destruct m as [c cl pt sl]. unfold after_delete; simpl.
  rewrite (known_maps_del u (changedb c) ks Hu).
  rewrite !app_nil_r, !map_app, <- !app_assoc. reflexivity.
Qed.

Lemma delete_one_known (u : string) (stored : dict) (m : machine) :
  od_get u (changedb (self m)) = Some stored ->
  has_dn stored = true ->
  decodable (PDict stored) = true ->
  delete_one u m = (Ok tt, after_delete [u] m).
Proof.
  intros Hget Hdn Hdec.
  destruct (has_dn_text _ Hdn) as [s Hs].
  pose proof (stringify_dict_outcome stored) as Hconv.
  rewrite Hdec in Hconv. destruct Hconv as [stored' Hconv].
  unfold delete_one, od_item. rewrite Hget, Hs.
  unfold post_change, build_js. simpl stringify. rewrite Hconv. simpl.
  unfold after_delete, delete_payload, delete_event, known_maps. simpl.
  rewrite Hget. simpl. rewrite Hs, Hconv. simpl.
  destruct m as [c cl pt sl]. destruct c as [ck sd db pr url].
  unfold store, with_self, log_put, log_call, set_changedb. simpl.
  rewrite od_del_set. reflexivity.
Qed.

Lemma for_each_delete_known (ks : list string) :
  NoDup ks ->
  forall m,
    (forall u, In u ks ->
       exists stored, od_get u (changedb (self m)) = Some stored /\
                      has_dn stored = true /\
                      decodable (PDict stored) = true) ->
    for_each delete_one ks m = (Ok tt, after_delete ks m).
Proof.
  induction 1 as [|u ks Hu Hnd IH]; intros m Hall.
  - simpl. unfold ret, after_delete. simpl. rewrite !app_nil_r.
    destruct m as [c cl pt sl]. destruct c. reflexivity.
  - destruct (Hall u (or_introl eq_refl)) as (stored & Hget & Hdn & Hdec).
    simpl. unfold bind. rewrite (delete_one_known u stored m Hget Hdn Hdec).
    rewrite (after_delete_cons u ks m Hu).
    apply IH. intros u' Hin.
    destruct (Hall u' (or_intror Hin)) as (st & Hg & H1 & H2).
    exists st. split; [|tauto].
    unfold after_delete. simpl.
    rewrite od_get_del_other; [exact Hg|]. intros ->. tauto.
Qed.

Lemma known_maps_filter (db : odict dict) (uuids : list string) :
  known_maps db (filter (fun u => od_mem u db) uuids) = known_maps db uuids.
Proof.
  unfold known_maps, od_mem. induction uuids as [|u us IH]; [reflexivity|].
  simpl. destruct (od_get u db) as [d|] eqn:E; simpl.
  - now rewrite E, IH.
  - exact IH.
Qed.

Lemma od_get_del_all (ks : list string) (db : odict dict) (u : string) :
  od_get u (del_all ks db) = if existsb (String.eqb u) ks then None
                             else od_get u db.
Proof.
  unfold del_all. revert db.
  induction ks as [|k ks IH]; intros db; simpl; [reflexivity|].
  rewrite IH. destruct (String.eqb u k) eqn:E; simpl.
  - apply String.eqb_eq in E. subst k.
    rewrite od_get_del_same. now destruct (existsb _ ks).
  - apply String.eqb_neq in E.
    rewrite od_get_del_other by congruence. reflexivity.
Qed.

(** The whole of [syncrepl_delete] on identifiers it can process. *)
Lemma syncrepl_delete_known (uuids : list string) (m : machine) :
  NoDup uuids ->
  forallb (deletable (changedb (self m))) uuids = true ->
  syncrepl_delete uuids m =
  (Ok tt,
   after_delete (filter (fun u => od_mem u (changedb (self m))) uuids) m).
Proof.
  intros Hnd Hall. unfold syncrepl_delete.
  apply for_each_delete_known.
  - now apply NoDup_filter.
  - intros u Hin. apply filter_In in Hin. destruct Hin as [Hin Hmem].
    apply od_mem_get in Hmem. destruct Hmem as [stored Hget].
    exists stored. split; [exact Hget|].
    rewrite forallb_forall in Hall. specialize (Hall u Hin).
    unfold deletable in Hall. rewrite Hget in Hall.
    now apply andb_true_iff in Hall.
Qed.

Lemma syncrepl_delete_unknown (uuids : list string) (m : machine) :
  forallb (fun u => negb (od_mem u (changedb (self m)))) uuids = true ->
  syncrepl_delete uuids m = (Ok tt, m).
Proof.
  intros H. unfold syncrepl_delete.
  replace (filter _ uuids) with (@nil string); [reflexivity|].
  induction uuids as [|u us IH]; [reflexivity|].
  simpl in *. apply andb_true_iff in H. destruct H as [H1 H2].
  apply negb_true_iff in H1. rewrite H1. now apply IH.
Qed.

Lemma existsb_eqb_In (u : string) (ks : list string) :
  existsb (String.eqb u) ks = true <-> In u ks.
Proof.
  rewrite existsb_exists. split.
  - intros (k & Hin & E). apply String.eqb_eq in E. now subst.
  - intros Hin. exists u. split; [exact Hin|apply String.eqb_refl].
Qed.

Lemma od_get_after_delete (uuids : list string) (m : machine) (u : string) :
  od_get u (changedb (self (after_delete
     (filter (fun k => od_mem k (changedb (self m))) uuids) m))) =
  if existsb (String.eqb u) uuids then None
  else od_get u (changedb (self m)).
Proof.
  unfold after_delete. simpl. rewrite od_get_del_all.
  destruct (existsb (String.eqb u) (filter _ uuids)) eqn:E.
  - apply existsb_eqb_In, filter_In in E. destruct E as [E _].
    apply existsb_eqb_In in E. now rewrite E.
  - destruct (existsb (String.eqb u) uuids) eqn:E'; [|reflexivity].
    apply existsb_eqb_In in E'.
    destruct (od_mem u (changedb (self m))) eqn:Hm.
    + assert (In u (filter (fun k => od_mem k (changedb (self m))) uuids))
        as Hin by (apply filter_In; tauto).
      apply existsb_eqb_In in Hin. congruence.
    + unfold od_mem in Hm.
      now destruct (od_get u (changedb (self m))).
Qed.

(** C2, as the code has it. When [syncrepl_delete] is called with
    identifiers listed once each, and the stored map of every known one
    among them is decodable, then in either phase the call returns, hands
    [post_change] one event per known identifier, in order, with kind
    ['delete'], the stored name, an empty new map and the stored map as the
    previous one, sends the matching requests, and removes exactly the
    listed identifiers. *)
Theorem syncrepl_delete_emits_and_removes (uuids : list string) (m : machine) :
  NoDup uuids ->
  forallb (deletable (changedb (self m))) uuids = true ->
  exists m',
    syncrepl_delete uuids m = (Ok tt, m') /\
    calls m' =
      calls m ++ map delete_event (known_maps (changedb (self m)) uuids) /\
    puts m' =
      puts m ++ map (fun d => (pubsub_url (self m), delete_payload d))
                    (known_maps (changedb (self m)) uuids) /\
    (forall u, In u uuids -> od_get u (changedb (self m')) = None) /\
    (forall u, ~ In u uuids ->
               od_get u (changedb (self m')) = od_get u (changedb (self m))) /\
    sync_done (self m') = sync_done (self m).
Proof.
  intros Hnd Hall. eexists. split; [now apply syncrepl_delete_known|].
  split; [unfold after_delete; simpl; now rewrite known_maps_filter|].
  split; [unfold after_delete; simpl; now rewrite known_maps_filter|].
  split; [|split].
  - intros u Hin. rewrite od_get_after_delete.
    apply existsb_eqb_In in Hin. now rewrite Hin.
  - intros u Hout. rewrite od_get_after_delete.
    destruct (existsb (String.eqb u) uuids) eqn:E; [|reflexivity].
    apply existsb_eqb_In in E. contradiction.
  - reflexivity.
Qed.

Lemma syncrepl_delete_emits_and_removes_witness :
  NoDup ["u1"] /\
  forallb (deletable (changedb (self alice_state))) ["u1"] = true /\
  exists m',
    syncrepl_delete ["u1"] alice_state = (Ok tt, m') /\
    calls m' =
      calls alice_state
      ++ map delete_event (known_maps (changedb (self alice_state)) ["u1"]) /\
    puts m' =
      puts alice_state
      ++ map (fun d => (pubsub_url (self alice_state), delete_payload d))
             (known_maps (changedb (self alice_state)) ["u1"]) /\
    (forall u, In u ["u1"] -> od_get u (changedb (self m')) = None) /\
    (forall u, ~ In u ["u1"] ->
               od_get u (changedb (self m'))
               = od_get u (changedb (self alice_state))) /\
    sync_done (self m') = sync_done (self alice_state).
Proof.
  assert (NoDup ["u1"]) as Hnd
      by (constructor; [simpl; tauto|constructor]).
  split; [exact Hnd|]. split; [reflexivity|].
  apply (syncrepl_delete_emits_and_removes ["u1"] alice_state Hnd).
  reflexivity.
Defined.

(** C2, as stated, fails. An entry received during the refresh keeps its
    raw values; when one of them is not UTF-8 its deletion raises while the
    payload is built, nothing is sent and the identifier stays. An
    identifier listed twice raises [KeyError] at its second turn. *)
Lemma syncrepl_delete_can_raise :
  fst (syncrepl_delete ["u1"] photo_state) = Raise UnicodeDecodeError /\
  od_mem "u1" (changedb (self (snd (syncrepl_delete ["u1"] photo_state))))
  = true /\
  puts (snd (syncrepl_delete ["u1"] photo_state)) = [] /\
  fst (syncrepl_delete ["u1"; "u1"] alice_state) = Raise KeyError.
Proof. repeat split; reflexivity. Qed.

(** C5, as the code has it. An identifier that is not stored is passed
    over: the call returns and nothing changes. For a stored identifier
    whose map is decodable, the first call hands [post_change] exactly one
    ['delete'] event and removes it, and a second call returns without an
    event and leaves the machine as it is. *)
Theorem syncrepl_delete_twice (u : string) (stored : dict) (m : machine) :
  (forall uuids,
      forallb (fun k => negb (od_mem k (changedb (self m)))) uuids = true ->
      syncrepl_delete uuids m = (Ok tt, m)) /\
  (od_get u (changedb (self m)) = Some stored ->
   has_dn stored = true ->
   decodable (PDict stored) = true ->
   exists m1,
     syncrepl_delete [u] m = (Ok tt, m1) /\
     calls m1 = calls m ++ [delete_event stored] /\
     od_get u (changedb (self m1)) = None /\
     syncrepl_delete [u] m1 = (Ok tt, m1)).
Proof.
  split; [intros uuids; apply syncrepl_delete_unknown|].
  intros Hget Hdn Hdec.
  assert (NoDup [u]) as Hnd by (constructor; [simpl; tauto|constructor]).
  assert (forallb (deletable (changedb (self m))) [u] = true) as Hall.
  { simpl. unfold deletable. now rewrite Hget, Hdn, Hdec. }
  exists (after_delete (filter (fun k => od_mem k (changedb (self m))) [u]) m).
  assert (od_get u (changedb (self (after_delete
            (filter (fun k => od_mem k (changedb (self m))) [u]) m))) = None)
    as Hgone.
  { rewrite od_get_after_delete. simpl. now rewrite String.eqb_refl. }
  split; [now apply syncrepl_delete_known|].
  split; [|split; [exact Hgone|]].
  - unfold after_delete; simpl. unfold od_mem, known_maps. rewrite Hget.
    simpl. now rewrite Hget.
  - apply syncrepl_delete_unknown. cbn [forallb]. unfold od_mem at 1.
    now rewrite Hgone.
Qed.

Lemma syncrepl_delete_twice_witness :
  od_get "u1" (changedb (self alice_state))
  = Some (od_set "dn" (PStr (txt "cn=alice")) alice_attributes) /\
  exists m1,
    syncrepl_delete ["u1"] alice_state = (Ok tt, m1) /\
    calls m1 =
      calls alice_state
      ++ [delete_event (od_set "dn" (PStr (txt "cn=alice")) alice_attributes)] /\
    od_get "u1" (changedb (self m1)) = None /\
    syncrepl_delete ["u1"] m1 = (Ok tt, m1).
Proof.
  split; [reflexivity|].
  apply (proj2 (syncrepl_delete_twice "u1"
                  (od_set "dn" (PStr (txt "cn=alice")) alice_attributes)
                  alice_state)); reflexivity.
Defined.

(** C5, as stated, fails. For a stored identifier whose map holds a value
    that is not UTF-8, the first call raises and removes nothing, and the
    second call does the same again: two events have reached [post_change],
    both calls ended in an error, and nothing was sent. *)
Lemma syncrepl_delete_twice_can_raise :
  fst (syncrepl_delete ["u1"] photo_state) = Raise UnicodeDecodeError /\
  fst (syncrepl_delete ["u1"] (snd (syncrepl_delete ["u1"] photo_state)))
  = Raise UnicodeDecodeError /\
  List.length (calls (snd (syncrepl_delete ["u1"]
                        (snd (syncrepl_delete ["u1"] photo_state))))) = 2 /\
  puts (snd (syncrepl_delete ["u1"]
               (snd (syncrepl_delete ["u1"] photo_state)))) = [] /\
  od_mem "u1" (changedb (self (snd (syncrepl_delete ["u1"]
                 (snd (syncrepl_delete ["u1"] photo_state)))))) = true.
Proof. repeat split; reflexivity. Qed.

(** ** The refresh phase *)



Lemma for_each_rel {X} (R : machine -> machine -> Prop) (f : X -> M unit) :
  (forall m, R m m) ->
  (forall m1 m2 m3, R m1 m2 -> R m2 m3 -> R m1 m3) ->
  (forall x m, R m (snd (f x m))) ->
  forall l m, R m (snd (for_each f l m)).
Proof.
  intros Hrefl Htrans Hstep l.
  induction l as [|x l IH]; intros m; simpl; [apply Hrefl|].
  unfold bind. pose proof (Hstep x m) as H.
  destruct (f x m) as [[[]|e] m']; simpl in *; [|exact H].
  apply (Htrans _ _ _ H (IH m')).
Qed.




(** Marking identifiers present returns and touches the present set only. *)
Lemma mark_present (uuids : list string) (m : machine) :
  exists p,
    syncrepl_present (Some uuids) false m
    = (Ok tt, with_self (set_presentUUIDs p) m) /\
    forall u, od_mem u p
              = od_mem u (presentUUIDs (self m)) || existsb (String.eqb u) uuids.
Proof.
  cbn [syncrepl_present]. revert m. induction uuids as [|k ks IH]; intros m.
  - exists (presentUUIDs (self m)). split.
    + simpl. unfold ret. destruct m as [c cl pt sl]. destruct c. reflexivity.
    + intros u. simpl. now rewrite orb_false_r.
  - cbn [for_each]. unfold bind. unfold update at 1.
    destruct (IH (with_self (fun c =>
                set_presentUUIDs (od_set k true (presentUUIDs c)) c) m))
      as (p & Hrun & Hp).
    exists p. split.
    + rewrite Hrun. destruct m as [c cl pt sl]. destruct c. reflexivity.
    + intros u. rewrite Hp. simpl. unfold od_mem.
      destruct (String.eqb u k) eqn:E.
      * apply String.eqb_eq in E. subst k. rewrite od_get_set_same.
        simpl. now rewrite orb_true_r.
      * apply String.eqb_neq in E.
        rewrite od_get_set_other by congruence. reflexivity.
Qed.


Lemma syncrepl_entry_refreshing (dn : text) (attributes : dict)
    (uuid : string) (m : machine) :
  sync_done (self m) = false ->
  syncrepl_entry dn attributes uuid m
  = (Ok tt, store uuid (od_set "dn" (PStr dn) attributes) m).
Proof.
  intros H. unfold syncrepl_entry.
  destruct (classify uuid (changedb (self m))) as [ct prev].
  simpl. now rewrite H.
Qed.


Lemma dispatch_silent (cb : callback) (m : machine) :
  sync_done (self m) = false ->
  silent cb = true ->
  fst (dispatch cb m) = Ok tt /\
  sync_done (self (snd (dispatch cb m))) = false /\
  calls (snd (dispatch cb m)) = calls m /\
  puts (snd (dispatch cb m)) = puts m.
Proof.
  intros Hs Hcb. destruct cb as [dn a u|us|[us|] [|]| |k];
    try discriminate; simpl.
  - rewrite syncrepl_entry_refreshing by exact Hs. simpl. tauto.
  - destruct (mark_present us m) as (p & Hrun & _). simpl in Hrun.
    rewrite Hrun. simpl. tauto.
  - tauto.
Qed.


Lemma run_silent (cbs : list callback) :
  forallb silent cbs = true ->
  forall m, sync_done (self m) = false ->
            fst (run cbs m) = Ok tt /\
            calls (snd (run cbs m)) = calls m /\
            puts (snd (run cbs m)) = puts m.
Proof.
  unfold run.
  induction cbs as [|cb cbs IH]; intros Hb m Hs; simpl; [tauto|].
  simpl in Hb. apply andb_true_iff in Hb. destruct Hb as [Hcb Hb].
  destruct (dispatch_silent cb m Hs Hcb) as (Hr & Hs' & Hc & Hp).
  unfold bind. destruct (dispatch cb m) as [[[]|e] m']; simpl in *;
    [|discriminate].
  destruct (IH Hb m' Hs') as (Hr2 & Hc2 & Hp2).
  rewrite Hc2, Hp2. tauto.
Qed.




(** ** The presence phase *)

Lemma filter_single {A} (f : A -> bool) (c : A) (l : list A) :
  NoDup l -> In c l ->
  (forall x, In x l -> (f x = true <-> x = c)) ->
  filter f l = [c].
Proof.
  induction 1 as [|x l Hx Hnd IH]; intros Hin Hf; [destruct Hin|].
  assert (forall y, In y l -> y <> c -> f y = false) as Hrest.
  { intros y Hy Hne. destruct (f y) eqn:E; [|reflexivity].
    apply (Hf y (or_intror Hy)) in E. contradiction. }
  simpl. destruct Hin as [->|Hin].
  - rewrite (proj2 (Hf c (or_introl eq_refl)) eq_refl). f_equal.
    clear IH Hf. induction l as [|y l IHl]; [reflexivity|]. simpl.
    rewrite (Hrest y (or_introl eq_refl)).
    + apply IHl.
      * intros H. apply Hx. now right.
      * now inversion Hnd.
      * intros z Hz. apply Hrest. now right.
    + intros ->. apply Hx. now left.
  - assert (x <> c) as Hne by (intros ->; contradiction).
    destruct (f x) eqn:E.
    + apply (Hf x (or_introl eq_refl)) in E. contradiction.
    + apply IH; [exact Hin|]. intros y Hy. apply Hf. now right.
Qed.

(** C4, as the code has it. The session holds exactly the identifiers
    [A], [B] and [C], and no identifier is marked present. [C] is not the
    reserved key ['ldap_cookie'] and its stored map is decodable. Then a
    presence cycle that reports [A] and [B], followed by the end marker
    without [refreshDeletes], returns, hands [post_change] exactly one
    event, the deletion of [C], keeps [A] and [B], removes [C], and clears
    the present set. *)
Theorem presence_cycle_deletes_absent (A B C : string) (stored : dict)
    (m : machine) :
  NoDup (od_keys (changedb (self m))) ->
  (forall u, In u (od_keys (changedb (self m))) <-> u = A \/ u = B \/ u = C) ->
  C <> A -> C <> B ->
  presentUUIDs (self m) = [] ->
  C <> "ldap_cookie" ->
  od_get C (changedb (self m)) = Some stored ->
  has_dn stored = true ->
  decodable (PDict stored) = true ->
  exists m',
    run (presence_cycle A B) m = (Ok tt, m') /\
    calls m' = calls m ++ [delete_event stored] /\
    od_mem A (changedb (self m')) = true /\
    od_mem B (changedb (self m')) = true /\
    od_mem C (changedb (self m')) = false /\
    presentUUIDs (self m') = [].
Proof.
  intros Hnd Hkeys HCA HCB Hp HCc Hget Hdn Hdec.
  destruct (mark_present [A; B] m) as (p & Hmark & Hpm).
  set (m1 := with_self (set_presentUUIDs p) m) in *.
  assert (changedb (self m1) = changedb (self m)) as Hdb by reflexivity.
  assert (filter (fun uuid => negb (od_mem uuid (presentUUIDs (self m1)))
                              && negb (String.eqb uuid "ldap_cookie"))
                 (od_keys (changedb (self m1))) = [C]) as Hfilter.
  { apply filter_single.
    - exact Hnd.
    - apply Hkeys. tauto.
    - intros u Hu. change (presentUUIDs (self m1)) with p.
      rewrite Hpm, Hp. simpl. rewrite orb_false_r.
      apply Hkeys in Hu. split.
      + intros H. apply andb_true_iff in H. destruct H as [H _].
        apply negb_true_iff, orb_false_iff in H. destruct H as [HA HB].
        apply String.eqb_neq in HA, HB. tauto.
      + intros ->. apply andb_true_iff. split; apply negb_true_iff.
        * apply orb_false_iff. split; now apply String.eqb_neq.
        * now apply String.eqb_neq. }
  assert (forallb (deletable (changedb (self m1))) [C] = true) as Hall.
  { cbn [forallb]. unfold deletable. rewrite Hdb, Hget, Hdn, Hdec.
    reflexivity. }
  assert (NoDup [C]) as HndC by (constructor; [simpl; tauto|constructor]).
  pose proof (syncrepl_delete_known [C] m1 HndC Hall) as Hdel.
  set (m2 := after_delete
               (filter (fun u => od_mem u (changedb (self m1))) [C]) m1) in *.
  exists (with_self (set_presentUUIDs []) m2).
  assert (forall u, od_get u (changedb (self m2)) =
                    if existsb (String.eqb u) [C] then None
                    else od_get u (changedb (self m))) as Hafter.
  { intros u. unfold m2. rewrite od_get_after_delete. now rewrite Hdb. }
  split; [|split; [|split; [|split; [|split]]]].
  - unfold run, presence_cycle. cbn [for_each dispatch]. unfold bind at 1.
    rewrite Hmark. unfold bind at 1. cbn [syncrepl_present negb].
    unfold bind at 1. rewrite Hfilter, Hdel. reflexivity.
  - change (calls (with_self (set_presentUUIDs []) m2)) with (calls m2).
    unfold m2, after_delete. cbn [calls]. rewrite known_maps_filter, Hdb.
    unfold known_maps. cbn [flat_map]. rewrite Hget. reflexivity.
  - unfold od_mem. change (self (with_self (set_presentUUIDs []) m2))
      with (set_presentUUIDs [] (self m2)). simpl changedb.
    rewrite Hafter. simpl. rewrite orb_false_r.
    assert (String.eqb A C = false) as -> by (apply String.eqb_neq; congruence).
    assert (In A (od_keys (changedb (self m)))) as HA by (apply Hkeys; tauto).
    apply od_mem_keys in HA. exact HA.
  - unfold od_mem. change (self (with_self (set_presentUUIDs []) m2))
      with (set_presentUUIDs [] (self m2)). simpl changedb.
    rewrite Hafter. simpl. rewrite orb_false_r.
    assert (String.eqb B C = false) as -> by (apply String.eqb_neq; congruence).
    assert (In B (od_keys (changedb (self m)))) as HB by (apply Hkeys; tauto).
    apply od_mem_keys in HB. exact HB.
  - unfold od_mem. change (self (with_self (set_presentUUIDs []) m2))
      with (set_presentUUIDs [] (self m2)). simpl changedb.
    rewrite Hafter. simpl. now rewrite String.eqb_refl.
  - reflexivity.
Qed.

Lemma presence_cycle_deletes_absent_witness :
  od_keys (changedb (self (three_entries "C" alice_attributes)))
  = ["A"; "B"; "C"] /\
  presentUUIDs (self (three_entries "C" alice_attributes)) = [] /\
  exists m',
    run (presence_cycle "A" "B") (three_entries "C" alice_attributes)
    = (Ok tt, m') /\
    calls m' =
      calls (three_entries "C" alice_attributes)
      ++ [delete_event (od_set "dn" (PStr (txt "cn=c")) alice_attributes)] /\
    od_mem "A" (changedb (self m')) = true /\
    od_mem "B" (changedb (self m')) = true /\
    od_mem "C" (changedb (self m')) = false /\
    presentUUIDs (self m') = [].
Proof.
  split; [reflexivity|]. split; [reflexivity|].
  apply (presence_cycle_deletes_absent "A" "B" "C"
           (od_set "dn" (PStr (txt "cn=c")) alice_attributes)
           (three_entries "C" alice_attributes)).
  - repeat constructor; simpl; intuition discriminate.
  - intros u. simpl. intuition congruence.
  - discriminate.
  - discriminate.
  - reflexivity.
  - discriminate.
  - reflexivity.
  - reflexivity.
  - reflexivity.
Defined.

(** C4, as stated, fails in two ways. When the third identifier is the
    key ['ldap_cookie'], which the end marker leaves out, the cycle emits
    nothing and the identifier stays. When the stored map of the third
    identifier holds a value that is not UTF-8, the deletion raises while
    the payload is built: nothing is sent, and the identifier stays. *)
Lemma presence_cycle_can_miss_absent :
  (fst (run (presence_cycle "A" "B")
            (three_entries "ldap_cookie" alice_attributes)) = Ok tt /\
   calls (snd (run (presence_cycle "A" "B")
                   (three_entries "ldap_cookie" alice_attributes))) = [] /\
   od_mem "ldap_cookie"
     (changedb (self (snd (run (presence_cycle "A" "B")
                             (three_entries "ldap_cookie" alice_attributes)))))
   = true) /\
  (fst (run (presence_cycle "A" "B") (three_entries "C" photo_attributes))
   = Raise UnicodeDecodeError /\
   puts (snd (run (presence_cycle "A" "B")
                  (three_entries "C" photo_attributes))) = [] /\
   od_mem "C"
     (changedb (self (snd (run (presence_cycle "A" "B")
                             (three_entries "C" photo_attributes)))))
   = true).
Proof. repeat split; reflexivity. Qed.

(** ** Entries *)

Lemma run_cons (cb : callback) (cbs : list callback) (m : machine) :
  run (cb :: cbs) m =
  match dispatch cb m with
  | (Ok _, m') => run cbs m'
  | (Raise e, m') => (Raise e, m')
  end.
Proof. reflexivity. Qed.

Lemma run_entries_refreshing (cs : list entry_call) :
  forall m,
    sync_done (self m) = false ->
    fst (run (entries cs) m) = Ok tt /\
    sync_done (self (snd (run (entries cs) m))) = false /\
    forall u,
      od_get u (changedb (self (snd (run (entries cs) m)))) =
      match latest cs u with
      | Some d => Some d
      | None => od_get u (changedb (self m))
      end.
Proof.
  induction cs as [|[[dn a] k] cs IH]; intros m Hs.
  - simpl. tauto.
  - cbn [entries map]. rewrite run_cons. cbn [dispatch].
    rewrite syncrepl_entry_refreshing by exact Hs.
    destruct (IH (store k (od_set "dn" (PStr dn) a) m) Hs) as (Hr & Hs' & Hg).
    split; [exact Hr|]. split; [exact Hs'|].
    intros u. fold (entries cs). rewrite Hg. cbn [latest].
    destruct (latest cs u) as [d|]; [reflexivity|].
    unfold entry_uuid, stored_map, store. simpl.
    destruct (String.eqb u k) eqn:E.
    + apply String.eqb_eq in E. subst k. apply od_get_set_same.
    + apply String.eqb_neq in E. apply od_get_set_other. congruence.
Qed.

Lemma latest_known (cs : list entry_call) (u : string) :
  match latest cs u with Some _ => true | None => false end
  = existsb (String.eqb u) (map entry_uuid cs).
Proof.
  induction cs as [|c cs IH]; simpl; [reflexivity|].
  rewrite <- IH. destruct (latest cs u).
  - now rewrite orb_true_r.
  - rewrite orb_false_r. now destruct (String.eqb u (entry_uuid c)).
Qed.

Lemma entries_silent (cs : list entry_call) :
  forallb silent (entries cs) = true.
Proof.
  induction cs as [|[[dn a] k] cs IH]; simpl; [reflexivity|exact IH].
Qed.

(** When changes are published, the classification of an entry is what
    [post_change] receives. *)
Lemma syncrepl_entry_event (dn : text) (attributes : dict) (uuid : string)
    (m : machine) :
  sync_done (self m) = true ->
  calls (snd (syncrepl_entry dn attributes uuid m))
  = calls m ++ [entry_event dn attributes uuid (changedb (self m))].
Proof.
  intros Hs. unfold syncrepl_entry, entry_event.
  destruct (classify uuid (changedb (self m))) as [ct prev].
  cbn [store with_self self sync_done set_changedb]. rewrite Hs.
  unfold post_change.
  destruct (build_js _ _ _ _) as [[a' p'] [js|e]]; reflexivity.
Qed.

(** A fresh session stays in its refresh phase under entries: they are
    stored and nothing is emitted. *)
Lemma entries_refresh_from_boot (cs : list entry_call) (next : entry_call) :
  fst (run (entries cs) boot) = Ok tt /\
  calls (snd (run (entries cs) boot)) = [] /\
  (forall u,
      od_get u (changedb (self (snd (run (entries cs) boot)))) = latest cs u) /\
  (forall u,
      od_mem u (changedb (self (snd (run (entries cs) boot))))
      = existsb (String.eqb u) (map entry_uuid cs)) /\
  classify (entry_uuid next) (changedb (self (snd (run (entries cs) boot))))
  = match latest cs (entry_uuid next) with
    | Some stored => ("modify", stored)
    | None => ("add", [])
    end.
Proof.
  destruct (run_entries_refreshing cs boot eq_refl) as (Hr & _ & Hg).
  assert (forall u, od_get u (changedb (self (snd (run (entries cs) boot))))
                    = latest cs u) as Hget.
  { intros u. rewrite Hg. now destruct (latest cs u). }
  split; [exact Hr|]. split; [|split; [exact Hget|split]].
  - apply (run_silent (entries cs) (entries_silent cs) boot eq_refl).
  - intros u. unfold od_mem. rewrite Hget. apply latest_known.
  - unfold classify. now rewrite Hget.
Qed.

Example entries_add_then_modify :
  latest [(txt "cn=a", alice_attributes, "u1");
          (txt "cn=a", photo_attributes, "u1")] "u1"
  = Some (("jpegPhoto", PList [PBytes [xff; xd8]])
          :: [("dn", PStr (txt "cn=a"))]).
Proof. reflexivity. Qed.

(** ** The recorded name *)

Lemma dict_loop_keeps_text (d : dict) (k : string) (s : text) :
  od_get k d = Some (PStr s) ->
  od_get k (fst (dict_loop convert_member d)) = Some (PStr s).
Proof.
  induction d as [|[k' v] d IH]; simpl; [discriminate|].
  destruct (String.eqb k k') eqn:E.
  - intros H. inversion H; subst v. simpl.
    destruct (dict_loop convert_member d) as [d' o]. simpl. now rewrite E.
  - intros H. destruct (convert_member v) as [v'|e]; simpl.
    + specialize (IH H).
      destruct (dict_loop convert_member d) as [d' o]. simpl in *.
      now rewrite E.
    + now rewrite E.
Qed.

Lemma stringify_dict_keeps_dn (d : dict) :
  has_dn d = true -> has_dn (fst (stringify_dict d)) = true.
Proof.
  intros H. destruct (has_dn_text d H) as [s Hs].
  unfold has_dn, stringify_dict. now rewrite (dict_loop_keeps_text d "dn" s Hs).
Qed.

(** The two dicts as [build_js] leaves them: converted, or untouched. *)
Lemma build_js_leaves (dn : pyval) (a p : dict) (ct : string) :
  (fst (fst (build_js dn a p ct)) = a \/
   fst (fst (build_js dn a p ct)) = fst (stringify_dict a)) /\
  (snd (fst (build_js dn a p ct)) = p \/
   snd (fst (build_js dn a p ct)) = fst (stringify_dict p)).
Proof.
  unfold build_js. destruct (stringify dn); [|simpl; tauto].
  destruct (stringify_dict p) as [p' [e|]]; [simpl; tauto|].
  destruct (stringify_dict a) as [a' [e|]]; simpl; tauto.
Qed.

Lemma build_js_keeps_text (dn : pyval) (a p : dict) (ct : string)
    (k : string) (s : text) :
  (od_get k a = Some (PStr s) ->
   od_get k (fst (fst (build_js dn a p ct))) = Some (PStr s)) /\
  (od_get k p = Some (PStr s) ->
   od_get k (snd (fst (build_js dn a p ct))) = Some (PStr s)).
Proof.
  destruct (build_js_leaves dn a p ct) as [[-> | ->] [-> | ->]];
    split; intros H; try exact H;
    now apply dict_loop_keeps_text.
Qed.

Lemma build_js_names (dn : pyval) (a p : dict) (ct : string) (js : payload) :
  names_entry ct dn a p ->
  snd (build_js dn a p ct) = Ok js ->
  payload_names_entry js.
Proof.
  intros [[s ->] Hn]. unfold build_js. simpl stringify.
  pose proof (dict_loop_keeps_text p "dn" s) as Hp.
  pose proof (dict_loop_keeps_text a "dn" s) as Ha.
  pose proof (stringify_dict_keeps_dn p) as Hhp.
  unfold stringify_dict in *.
  destruct (dict_loop convert_member p) as [p' [e|]] eqn:Ep; [discriminate|].
  destruct (dict_loop convert_member a) as [a' [e|]] eqn:Ea; [discriminate|].
  simpl in *. intros H. inversion H; subst js. clear H.
  exists a', p'. simpl. split; [reflexivity|]. split; [reflexivity|].
  split; [now exists s|].
  destruct Hn as [(-> & H1 & ->)|[(-> & H1 & H2)|(-> & -> & H2)]].
  - left. simpl in Ep. inversion Ep. auto.
  - right; left. auto.
  - right; right. simpl in Ea. inversion Ea. auto.
Qed.

Lemma post_change_named (dn : pyval) (a p : dict) (ct : string) (m : machine) :
  names_entry ct dn a p ->
  Forall event_names_entry (calls m) ->
  Forall (fun q => payload_names_entry (snd q)) (puts m) ->
  let m' := snd (post_change dn a p ct m) in
  self m' = self m /\
  Forall event_names_entry (calls m') /\
  Forall (fun q => payload_names_entry (snd q)) (puts m') /\
  fst (fst (fst (post_change dn a p ct m))) = fst (fst (build_js dn a p ct)) /\
  snd (fst (fst (post_change dn a p ct m))) = snd (fst (build_js dn a p ct)).
Proof.
  intros Hn Hc Hp. unfold post_change.
  pose proof (build_js_names dn a p ct) as Hjs.
  destruct (build_js dn a p ct) as [[a' p'] [js|e]]; simpl in *.
  - split; [reflexivity|]. split; [|split; [|tauto]].
    + apply Forall_app. split; [exact Hc|].
      constructor; [exact Hn|constructor].
    + apply Forall_app. split; [exact Hp|].
      constructor; [simpl; now apply Hjs|constructor].
  - split; [reflexivity|]. split; [|tauto].
    apply Forall_app. split; [exact Hc|].
    constructor; [exact Hn|constructor].
Qed.

Lemma for_each_inv {X} (P : machine -> Prop) (f : X -> M unit) :
  (forall x m, P m -> P (snd (f x m))) ->
  forall l m, P m -> P (snd (for_each f l m)).
Proof.
  intros Hstep l. induction l as [|x l IH]; intros m Hm; simpl; [exact Hm|].
  unfold bind. pose proof (Hstep x m Hm) as H.
  destruct (f x m) as [[[]|e] m']; simpl in *; [now apply IH|exact H].
Qed.

Lemma classify_names (dn : text) (a : dict) (u : string) (db : odict dict) :
  dn_recorded db = true ->
  names_entry (fst (classify u db)) (PStr dn)
              (od_set "dn" (PStr dn) a) (snd (classify u db)).
Proof.
  intros Hdb. split; [now exists dn|]. unfold classify.
  destruct (od_get u db) as [stored|] eqn:E; simpl.
  - right; left. split; [reflexivity|]. split; [apply od_get_set_same|].
    apply (forallb_od_get has_dn u stored db Hdb E).
  - left. split; [reflexivity|]. split; [apply od_get_set_same|reflexivity].
Qed.

Lemma has_dn_set_dn (dn : text) (a : dict) :
  has_dn (od_set "dn" (PStr dn) a) = true.
Proof. unfold has_dn. now rewrite od_get_set_same. Qed.

Lemma syncrepl_entry_named (dn : text) (a : dict) (u : string) (m : machine) :
  named m -> named (snd (syncrepl_entry dn a u m)).
Proof.
  intros (Hdb & Hc & Hp). unfold syncrepl_entry.
  pose proof (classify_names dn a u (changedb (self m)) Hdb) as Hn.
  destruct (classify u (changedb (self m))) as [ct prev]. simpl in Hn.
  set (attrs := od_set "dn" (PStr dn) a) in *.
  assert (dn_recorded (changedb (self (store u attrs m))) = true) as Hdb1.
  { simpl. apply forallb_od_set; [apply has_dn_set_dn|exact Hdb]. }
  destruct (sync_done (self (store u attrs m))); [|now repeat split].
  pose proof (post_change_named (PStr dn) attrs prev ct (store u attrs m)
                Hn Hc Hp) as (Hself & Hc' & Hp' & Ha & _).
  pose proof (proj1 (build_js_keeps_text (PStr dn) attrs prev ct "dn" dn)
                (od_get_set_same "dn" (PStr dn) a)) as Hdn.
  rewrite <- Ha in Hdn.
  destruct (post_change (PStr dn) attrs prev ct (store u attrs m))
    as [[[a' p'] r] m']. simpl in *.
  unfold named, store, with_self. simpl.
  split; [|split; [exact Hc'|exact Hp']].
  rewrite Hself. simpl. apply forallb_od_set; [|exact Hdb1].
  unfold has_dn. now rewrite Hdn.
Qed.

Lemma delete_one_named (u : string) (m : machine) :
  named m -> named (snd (delete_one u m)).
Proof.
  intros (Hdb & Hc & Hp). unfold delete_one, od_item.
  destruct (od_get u (changedb (self m))) as [stored|] eqn:Hget;
    [|now repeat split].
  pose proof (forallb_od_get has_dn u stored _ Hdb Hget) as Hdn.
  destruct (has_dn_text stored Hdn) as [s Hs]. rewrite Hs.
  assert (names_entry "delete" (PStr s) [] stored) as Hn.
  { split; [now exists s|]. right; right. auto. }
  pose proof (post_change_named (PStr s) [] stored "delete" m Hn Hc Hp)
    as (Hself & Hc' & Hp' & _ & Hprev).
  pose proof (proj2 (build_js_keeps_text (PStr s) [] stored "delete" "dn" s)
                Hs) as Hkeep.
  rewrite <- Hprev in Hkeep.
  destruct (post_change (PStr s) [] stored "delete" m) as [[[a' p'] r] m'].
  simpl in *.
  assert (dn_recorded (od_set u p' (changedb (self m'))) = true) as Hdb1.
  { rewrite Hself. apply forallb_od_set; [|exact Hdb].
    unfold has_dn. now rewrite Hkeep. }
  destruct r as [b|e]; simpl.
  - split; [|split; [exact Hc'|exact Hp']].
    now apply forallb_od_del.
  - now split.
Qed.

Lemma syncrepl_delete_named (uuids : list string) (m : machine) :
  named m -> named (snd (syncrepl_delete uuids m)).
Proof.
  unfold syncrepl_delete. apply for_each_inv. exact delete_one_named.
Qed.

Lemma syncrepl_present_named (uuids : option (list string)) (rd : bool)
    (m : machine) :
  named m -> named (snd (syncrepl_present uuids rd m)).
Proof.
  intros Hm. destruct uuids as [us|]; destruct rd; cbn [syncrepl_present negb].
  - now apply syncrepl_delete_named.
  - destruct (mark_present us m) as (p & Hrun & _).
    cbn [syncrepl_present] in Hrun. rewrite Hrun. exact Hm.
  - exact Hm.
  - unfold bind.
    pose proof (syncrepl_delete_named
      (filter (fun uuid => negb (od_mem uuid (presentUUIDs (self m)))
                           && negb (String.eqb uuid "ldap_cookie"))
              (od_keys (changedb (self m)))) m Hm) as H.
    destruct (syncrepl_delete _ m) as [[[]|e] m']; simpl in *; exact H.
Qed.

Lemma dispatch_named (cb : callback) (m : machine) :
  named m -> named (snd (dispatch cb m)).
Proof.
  intros Hm. destruct cb as [dn a u|us|us rd| |k]; cbn [dispatch].
  - now apply syncrepl_entry_named.
  - now apply syncrepl_delete_named.
  - now apply syncrepl_present_named.
  - exact Hm.
  - exact Hm.
Qed.

Lemma boot_named : named boot.
Proof. repeat split; constructor. Qed.

Lemma keeps_names_refl (m : machine) : keeps_names None m m.
Proof. intros u stored' _ H. exists stored'. tauto. Qed.

Lemma keeps_names_trans (m1 m2 m3 : machine) :
  keeps_names None m1 m2 -> keeps_names None m2 m3 -> keeps_names None m1 m3.
Proof.
  intros H12 H23 u s3 Hu H3.
  destruct (H23 u s3 Hu H3) as (s2 & H2 & K23).
  destruct (H12 u s2 Hu H2) as (s1 & H1 & K12).
  exists s1. split; [exact H1|]. intros s Hs. apply K23, K12, Hs.
Qed.

Lemma od_get_set_cases {V} (k u : string) (v v' : V) (d : odict V) :
  od_get u (od_set k v d) = Some v' ->
  (u = k /\ v' = v) \/ (u <> k /\ od_get u d = Some v').
Proof.
  destruct (String.eqb u k) eqn:E.
  - apply String.eqb_eq in E. subst k. rewrite od_get_set_same.
    intros H. inversion H. tauto.
  - apply String.eqb_neq in E. rewrite od_get_set_other by congruence. tauto.
Qed.

Lemma delete_one_keeps_names (k : string) (m : machine) :
  keeps_names None m (snd (delete_one k m)).
Proof.
  unfold delete_one, od_item.
  destruct (od_get k (changedb (self m))) as [stored|] eqn:Hget;
    [|apply keeps_names_refl].
  destruct (od_get "dn" stored) as [dn|]; [|apply keeps_names_refl].
  pose proof (build_js_keeps_text dn [] stored "delete" "dn") as Hkeep.
  unfold post_change.
  destruct (build_js dn [] stored "delete") as [[a' p'] r]. simpl in Hkeep.
  assert (forall db' : odict dict,
             (forall u d, od_get u db' = Some d ->
                          od_get u (od_set k p' (changedb (self m))) = Some d) ->
             forall u stored', od_get u db' = Some stored' ->
             exists st, od_get u (changedb (self m)) = Some st /\
                        forall s, od_get "dn" st = Some (PStr s) ->
                                  od_get "dn" stored' = Some (PStr s)) as Hgen.
  { intros db' Hsub u stored' H. apply Hsub in H.
    destruct (od_get_set_cases _ _ _ _ _ H) as [[-> ->]|[_ H']].
    - exists stored. split; [exact Hget|]. intros s. apply Hkeep.
    - exists stored'. tauto. }
  destruct r as [js|e]; simpl; intros u stored' _ H.
  - apply (Hgen (od_del k (od_set k p' (changedb (self m))))); [|exact H].
    intros u0 d0 H0. destruct (String.eqb k u0) eqn:E.
    + apply String.eqb_eq in E. subst u0.
      rewrite od_get_del_same in H0. discriminate.
    + apply String.eqb_neq in E.
      now rewrite od_get_del_other in H0 by exact E.
  - apply (Hgen (od_set k p' (changedb (self m)))); [tauto|exact H].
Qed.

Lemma syncrepl_delete_keeps_names (uuids : list string) (m : machine) :
  keeps_names None m (snd (syncrepl_delete uuids m)).
Proof.
  unfold syncrepl_delete.
  apply for_each_rel;
    [exact keeps_names_refl|exact keeps_names_trans|
     exact delete_one_keeps_names].
Qed.

Lemma dispatch_keeps_names (cb : callback) (m : machine) :
  keeps_names (entry_target cb) m (snd (dispatch cb m)).
Proof.
  destruct cb as [dn a k|us|[us|] [|]| |c]; cbn [dispatch entry_target].
  - intros u stored' Hu H. exists stored'. split; [|tauto].
    assert (u <> k) as Hne by congruence.
    revert H. unfold syncrepl_entry.
    destruct (classify k (changedb (self m))) as [ct prev].
    destruct (sync_done _).
    + unfold post_change.
      destruct (build_js _ _ _ _) as [[a' p'] [js|e]]; simpl;
        rewrite !od_get_set_other by congruence; tauto.
    + simpl. rewrite od_get_set_other by congruence. tauto.
  - apply syncrepl_delete_keeps_names.
  - apply syncrepl_delete_keeps_names.
  - destruct (mark_present us m) as (p & Hrun & _). rewrite Hrun.
    intros u stored' _ H. exists stored'. split; [exact H|tauto].
  - intros u stored' _ H. exists stored'. split; [exact H|tauto].
  - cbn [syncrepl_present negb]. unfold bind.
    pose proof (syncrepl_delete_keeps_names
      (filter (fun uuid => negb (od_mem uuid (presentUUIDs (self m)))
                           && negb (String.eqb uuid "ldap_cookie"))
              (od_keys (changedb (self m)))) m) as H.
    destruct (syncrepl_delete _ m) as [[[]|e] m']; simpl in *; exact H.
  - intros u stored' _ H. exists stored'. split; [exact H|tauto].
  - intros u stored' _ H. exists stored'. split; [exact H|tauto].
Qed.

(** A renamed entry: the modification is published under the new name,
    and its previous map still carries the old one. *)
Example rename_keeps_old_name :
  calls (snd (run [OnEntry (txt "cn=a") alice_attributes "u1";
                   OnRefreshDone;
                   OnEntry (txt "cn=b") alice_attributes "u1"] boot))
  = [{| ev_dn := PStr (txt "cn=b");
        ev_attributes := od_set "dn" (PStr (txt "cn=b")) alice_attributes;
        ev_previous_attributes :=
          od_set "dn" (PStr (txt "cn=a")) alice_attributes;
        ev_change_type := "modify" |}].
Proof. reflexivity. Qed.

(** ** The supervisor *)


Lemma connect_fresh (cfg : config) (m : machine) :
  changedb (self (connect cfg m)) = [] /\
  presentUUIDs (self (connect cfg m)) = [] /\
  sync_done (self (connect cfg m)) = false /\
  cookie (self (connect cfg m)) = None /\
  slept (connect cfg m) = slept m.
Proof.
  unfold connect. destruct (pubsuburl cfg) as [url|]; [|now repeat split].
  destruct (String.eqb url ""); now repeat split.
Qed.

Lemma post_change_slept (dn : pyval) (a p : dict) (ct : string) (m : machine) :
  slept (snd (post_change dn a p ct m)) = slept m.
Proof.
  unfold post_change.
  destruct (build_js dn a p ct) as [[a' p'] [js|e]]; reflexivity.
Qed.

Lemma dispatch_slept (cb : callback) (m : machine) (s : list N) :
  slept m = s -> slept (snd (dispatch cb m)) = s.
Proof.
  assert (forall u m, slept m = s -> slept (snd (delete_one u m)) = s) as Hone.
  { intros u m0 H0. unfold delete_one.
    destruct (od_item u (changedb (self m0))) as [stored|e]; [|exact H0].
    destruct (od_item "dn" stored) as [dn|e]; [|exact H0].
    pose proof (post_change_slept dn [] stored "delete" m0) as H.
    destruct (post_change dn [] stored "delete" m0) as [[[a' p'] r] m'].
    simpl in *. destruct r; simpl; congruence. }
  assert (forall us m, slept m = s -> slept (snd (syncrepl_delete us m)) = s)
    as Hdel.
  { intros us m0. unfold syncrepl_delete.
    apply (for_each_inv (fun x => slept x = s)). exact Hone. }
  intros Hm. destruct cb as [dn a u|us|[us|] [|]| |k]; cbn [dispatch].
  - unfold syncrepl_entry.
    destruct (classify u (changedb (self m))) as [ct prev].
    destruct (sync_done _); [|exact Hm].
    pose proof (post_change_slept (PStr dn) (od_set "dn" (PStr dn) a) prev ct
                  (store u (od_set "dn" (PStr dn) a) m)) as H.
    destruct (post_change _ _ _ _ _) as [[[a' p'] r] m']. simpl in *.
    congruence.
  - now apply Hdel.
  - now apply Hdel.
  - destruct (mark_present us m) as (p & Hrun & _). rewrite Hrun. exact Hm.
  - exact Hm.
  - cbn [syncrepl_present negb]. unfold bind.
    pose proof (Hdel
      (filter (fun uuid => negb (od_mem uuid (presentUUIDs (self m)))
                           && negb (String.eqb uuid "ldap_cookie"))
              (od_keys (changedb (self m)))) m Hm) as H.
    destruct (syncrepl_delete _ m) as [[[]|e] m']; simpl in *; exact H.
  - exact Hm.
  - exact Hm.
Qed.

Lemma poll_loop_slept (steps : list poll_step) :
  forall m, slept (snd (poll_loop steps m)) = slept m.
Proof.
  induction steps as [|st steps IH]; intros m; simpl; [reflexivity|].
  pose proof (for_each_inv (fun x => slept x = slept m) dispatch
                (fun cb x => dispatch_slept cb x (slept m))
                (delivered st) m eq_refl) as H.
  fold (run (delivered st)) in H.
  destruct (run (delivered st) m) as [[[]|e] m']; simpl in *; [|exact H].
  destruct (returns st) as [[|]|e]; simpl; [|exact H|exact H].
  now rewrite IH.
Qed.











(** * Further properties *)

(** ** The conversion *)

Lemma convert_member_without_bytes (v : pyval) :
  (contains_bytes v = false -> stringify v = Ok v) ->
  contains_bytes v = false -> convert_member v = Ok v.
Proof.
  intros IH H. destruct v as [b|s|l|d]; simpl in *;
    [discriminate|reflexivity|now apply IH|reflexivity].
Qed.

Lemma list_loop_without_bytes (l : list pyval) :
  Forall (fun v => contains_bytes v = false -> stringify v = Ok v) l ->
  existsb contains_bytes l = false ->
  list_loop convert_member l = Ok l.
Proof.
  induction 1 as [|v l Hv Hl IH]; intros H; [reflexivity|].
  simpl in H. apply orb_false_iff in H. destruct H as [H1 H2]. simpl.
  rewrite (convert_member_without_bytes v Hv H1). simpl.
  now rewrite (IH H2).
Qed.

Lemma dict_loop_without_bytes (d : dict) :
  Forall (fun kv => contains_bytes (snd kv) = false ->
                    stringify (snd kv) = Ok (snd kv)) d ->
  existsb (fun kv => contains_bytes (snd kv)) d = false ->
  dict_loop convert_member d = (d, None).
Proof.
  induction 1 as [|[k v] d Hv Hd IH]; intros H; [reflexivity|].
  simpl in *. apply orb_false_iff in H. destruct H as [H1 H2].
  rewrite (convert_member_without_bytes v Hv H1).
  now rewrite (IH H2).
Qed.

(** X1. A value without a binary value at any depth comes back as it is:
    the conversion returns it unchanged and cannot raise. *)
Theorem stringify_without_bytes (obj : pyval) :
  contains_bytes obj = false -> stringify obj = Ok obj.
Proof.
  induction obj as [b|s|l IH|d IH] using pyval_nested_ind; intros H.
  - discriminate H.
  - reflexivity.
  - rewrite stringify_list_eq. simpl in H.
    now rewrite (list_loop_without_bytes l IH H).
  - rewrite stringify_dict_eq. unfold stringify_dict. simpl in H.
    now rewrite (dict_loop_without_bytes d IH H).
Qed.

Lemma stringify_without_bytes_witness :
  contains_bytes (PDict [("dn", PStr (txt "cn=a"));
                         ("cn", PList [PStr (txt "a"); PList []])]) = false /\
  stringify (PDict [("dn", PStr (txt "cn=a"));
                    ("cn", PList [PStr (txt "a"); PList []])])
  = Ok (PDict [("dn", PStr (txt "cn=a"));
               ("cn", PList [PStr (txt "a"); PList []])]).
Proof.
  split; [reflexivity|].
  apply (stringify_without_bytes
           (PDict [("dn", PStr (txt "cn=a"));
                   ("cn", PList [PStr (txt "a"); PList []])])).
  reflexivity.
Defined.

Lemma dict_loop_keys (conv : pyval -> result pyval) (d : dict) :
  od_keys (fst (dict_loop conv d)) = od_keys d.
Proof.
  unfold od_keys. induction d as [|[k v] d IH]; simpl; [reflexivity|].
  destruct (conv v) as [v'|e]; [|reflexivity].
  destruct (dict_loop conv d) as [d' o]. simpl in *. now rewrite IH.
Qed.

Lemma list_loop_length (conv : pyval -> result pyval) (l l' : list pyval) :
  list_loop conv l = Ok l' -> List.length l' = List.length l.
Proof.
  revert l'. induction l as [|v l IH]; intros l' H; simpl in H.
  - inversion H. reflexivity.
  - destruct (conv v) as [v'|e]; simpl in H; [|discriminate].
    destruct (list_loop conv l) as [l1|e]; simpl in H; [|discriminate].
    inversion H. simpl. now rewrite (IH l1 eq_refl).
Qed.

(** X2. The conversion keeps the shape of its argument. A dict keeps its
    keys in their order, also in place and also when the call raises
    half-way; the result of a list has the length of the list; a text is
    returned as it is; a binary value becomes a text. No key or element is
    added or dropped. *)
Theorem stringify_keeps_shape (obj r : pyval) (d : dict) :
  od_keys (fst (stringify_dict d)) = od_keys d /\
  (stringify obj = Ok r -> same_shape obj r).
Proof.
  split; [apply dict_loop_keys|].
  destruct obj as [b|s|l|d0].
  - simpl. unfold rmap, rbind. destruct (str_utf8 b); intros H; inversion H.
    exact I.
  - simpl. intros H. inversion H. reflexivity.
  - rewrite stringify_list_eq. unfold rmap, rbind.
    destruct (list_loop convert_member l) as [l'|e] eqn:E; intros H;
      inversion H. simpl. now apply (list_loop_length convert_member).
  - rewrite stringify_dict_eq.
    pose proof (dict_loop_keys convert_member d0) as Hk.
    unfold stringify_dict.
    destruct (dict_loop convert_member d0) as [d' [e|]]; intros H;
      inversion H. exact Hk.
Qed.

Lemma stringify_keeps_shape_witness :
  stringify (PDict alice_attributes)
  = Ok (PDict [("cn", PList [PStr (txt "alice")])]) /\
  same_shape (PDict alice_attributes)
             (PDict [("cn", PList [PStr (txt "alice")])]).
Proof.
  split; [reflexivity|].
  apply (proj2 (stringify_keeps_shape (PDict alice_attributes)
                  (PDict [("cn", PList [PStr (txt "alice")])]) [])).
  reflexivity.
Defined.

Lemma decode_ascii_bytes (b : list byte) :
  ascii_bytes b = true -> Utf8.decode b = Some (map Byte.to_N b).
Proof.
  induction b as [|c b IH]; intros H; [reflexivity|].
  simpl in H. apply andb_true_iff in H. destruct H as [H1 H2].
  simpl. rewrite H1, (IH H2). reflexivity.
Qed.

(** X3. ASCII is converted byte for byte. A binary value whose bytes are all
    below 0x80 becomes the text with those code points, and a list of such
    values, the shape of every attribute of plain names and numbers, is
    converted element by element without an error. *)
Theorem stringify_ascii (b : list byte) (bs : list (list byte)) :
  ascii_bytes b = true ->
  forallb ascii_bytes bs = true ->
  stringify (PBytes b) = Ok (PStr (map Byte.to_N b)) /\
  stringify (PList (map PBytes bs))
  = Ok (PList (map (fun x => PStr (map Byte.to_N x)) bs)).
Proof.
  intros Hb Hbs. split.
  - simpl. unfold str_utf8. now rewrite (decode_ascii_bytes b Hb).
  - rewrite stringify_list_eq.
    assert (list_loop convert_member (map PBytes bs)
            = Ok (map (fun x => PStr (map Byte.to_N x)) bs)) as ->;
      [|reflexivity].
    induction bs as [|x bs IH]; [reflexivity|].
    simpl in Hbs. apply andb_true_iff in Hbs. destruct Hbs as [H1 H2].
    simpl. unfold str_utf8. rewrite (decode_ascii_bytes x H1). simpl.
    now rewrite (IH H2).
Qed.

Lemma stringify_ascii_witness :
  ascii_bytes [x63; x6e] = true /\
  stringify (PBytes [x63; x6e]) = Ok (PStr (map Byte.to_N [x63; x6e])) /\
  stringify (PList (map PBytes [[x61]; [x62]]))
  = Ok (PList (map (fun x => PStr (map Byte.to_N x)) [[x61]; [x62]])).
Proof.
  split; [reflexivity|].
  apply (stringify_ascii [x63; x6e] [[x61]; [x62]]); reflexivity.
Defined.


Ltac bool_props :=
  repeat match goal with
  | H : _ && _ = true |- _ => apply andb_true_iff in H; destruct H
  | H : (_ <=? _)%N = true |- _ => apply N.leb_le in H
  | H : (_ <=? _)%N = false |- _ => apply N.leb_gt in H
  | H : (_ <? _)%N = true |- _ => apply N.ltb_lt in H
  | H : (_ <? _)%N = false |- _ => apply N.ltb_ge in H
  | H : (_ =? _)%N = true |- _ => apply N.eqb_eq in H
  | H : (_ =? _)%N = false |- _ => apply N.eqb_neq in H
  end.

Lemma scalar_value_intro (cp : N) :
  (cp <= 0x10FFFF)%N -> ((cp < 0xD800)%N \/ (0xDFFF < cp)%N) ->
  scalar_value cp = true.
Proof.
  intros H1 H2. unfold scalar_value, Utf8.between.
  apply andb_true_iff. split; [now apply N.leb_le|].
  apply negb_true_iff, andb_false_iff.
  destruct H2 as [H2|H2]; [left; now apply N.leb_gt|right; now apply N.leb_gt].
Qed.

Lemma push_some (o : option text) (cp : N) (t : text) :
  Utf8.push o cp = Some t -> exists t', o = Some t' /\ t = cp :: t'.
Proof.
  unfold Utf8.push. destruct o as [t'|]; simpl; intros H; inversion H.
  now exists t'.
Qed.

Lemma decode_scalar_values (n : nat) :
  forall bs t,
    List.length bs <= n ->
    Utf8.decode bs = Some t ->
    forallb scalar_value t = true.
Proof.
  induction n as [|n IH]; intros bs t Hlen H.
  - destruct bs; [inversion H; reflexivity|simpl in Hlen; lia].
  - destruct bs as [|c0 r0]; [inversion H; reflexivity|].
    simpl in Hlen. cbn [Utf8.decode] in H.
    pose proof (Byte.to_N_bounded c0) as B0.
    destruct (Byte.to_N c0 <? 0x80)%N eqn:E1.
    + apply push_some in H. destruct H as (t' & Hd & ->). simpl.
      rewrite (IH r0 t') by (assumption || lia).
      rewrite andb_true_r. bool_props. apply scalar_value_intro; lia.
    + destruct (Utf8.between 0xC2 0xDF (Byte.to_N c0)) eqn:E2.
      * destruct r0 as [|c1 r1]; [discriminate|].
        destruct (Utf8.continuation (Byte.to_N c1)) eqn:E3; [|discriminate].
        apply push_some in H. destruct H as (t' & Hd & ->). simpl.
        simpl in Hlen. rewrite (IH r1 t') by (assumption || lia).
        rewrite andb_true_r. unfold Utf8.continuation, Utf8.between in *.
        bool_props. apply scalar_value_intro; lia.
      * destruct (Utf8.between 0xE0 0xEF (Byte.to_N c0)) eqn:E4.
        -- destruct r0 as [|c1 [|c2 r2]]; try discriminate.
           destruct (Utf8.second_ok (Byte.to_N c0) (Byte.to_N c1)
                     && Utf8.continuation (Byte.to_N c2)) eqn:E5;
             [|discriminate].
           apply push_some in H. destruct H as (t' & Hd & ->). simpl.
           simpl in Hlen. rewrite (IH r2 t') by (assumption || lia).
           rewrite andb_true_r.
           apply andb_true_iff in E5. destruct E5 as [E5 E6].
           unfold Utf8.second_ok in E5.
           destruct (Byte.to_N c0 =? 0xE0)%N eqn:Q1;
             [|destruct (Byte.to_N c0 =? 0xED)%N eqn:Q2;
               [|destruct (Byte.to_N c0 =? 0xF0)%N eqn:Q3;
                 [|destruct (Byte.to_N c0 =? 0xF4)%N eqn:Q4]]];
             unfold Utf8.continuation, Utf8.between in *; bool_props;
             apply scalar_value_intro; lia.
        -- destruct (Utf8.between 0xF0 0xF4 (Byte.to_N c0)) eqn:E7;
             [|discriminate].
           destruct r0 as [|c1 [|c2 [|c3 r3]]]; try discriminate.
           destruct (Utf8.second_ok (Byte.to_N c0) (Byte.to_N c1)
                     && Utf8.continuation (Byte.to_N c2)
                     && Utf8.continuation (Byte.to_N c3)) eqn:E5;
             [|discriminate].
           apply push_some in H. destruct H as (t' & Hd & ->). simpl.
           simpl in Hlen. rewrite (IH r3 t') by (assumption || lia).
           rewrite andb_true_r.
           apply andb_true_iff in E5. destruct E5 as [E5 E8].
           apply andb_true_iff in E5. destruct E5 as [E5 E6].
           unfold Utf8.second_ok in E5.
           destruct (Byte.to_N c0 =? 0xE0)%N eqn:Q1;
             [|destruct (Byte.to_N c0 =? 0xED)%N eqn:Q2;
               [|destruct (Byte.to_N c0 =? 0xF0)%N eqn:Q3;
                 [|destruct (Byte.to_N c0 =? 0xF4)%N eqn:Q4]]];
             unfold Utf8.continuation, Utf8.between in *; bool_props;
             apply scalar_value_intro; lia.
Qed.

(** X4. The decoding is strict in what it produces: every code point of a
    text that the conversion makes from a binary value is a Unicode scalar
    value, at most U+10FFFF and no surrogate. *)
Theorem stringify_gives_scalar_values (b : list byte) (t : text) :
  stringify (PBytes b) = Ok (PStr t) -> forallb scalar_value t = true.
Proof.
  simpl. unfold rmap, rbind, str_utf8.
  destruct (Utf8.decode b) as [t'|] eqn:E; intros H; inversion H; subst.
  apply (decode_scalar_values (List.length b) b t (le_n _) E).
Qed.

Lemma stringify_gives_scalar_values_witness :
  stringify (PBytes [xf0; x9f; x98; x80]) = Ok (PStr [0x1F600%N]) /\
  forallb scalar_value [0x1F600%N] = true.
Proof.
  split; [reflexivity|].
  apply (stringify_gives_scalar_values [xf0; x9f; x98; x80] [0x1F600%N]).
  reflexivity.
Defined.

(** ** What a callback touches *)

Lemma set_changedb_same (c : SyncReplClient) : set_changedb (changedb c) c = c.
Proof. now destruct c. Qed.

Lemma post_change_self (dn : pyval) (a p : dict) (ct : string) (m : machine) :
  self (snd (post_change dn a p ct m)) = self m.
Proof.
  unfold post_change.
  destruct (build_js dn a p ct) as [[a' p'] [js|e]]; reflexivity.
Qed.

Lemma delete_one_frame (k : string) (m : machine) :
  exists db',
    self (snd (delete_one k m)) = set_changedb db' (self m) /\
    forall u, u <> k -> od_get u db' = od_get u (changedb (self m)).
Proof.
  unfold delete_one.
  destruct (od_item k (changedb (self m))) as [stored|e];
    [|exists (changedb (self m)); now rewrite set_changedb_same].
  destruct (od_item "dn" stored) as [dn|e];
    [|exists (changedb (self m)); now rewrite set_changedb_same].
  pose proof (post_change_self dn [] stored "delete" m) as Hs.
  destruct (post_change dn [] stored "delete" m) as [[[a' p'] r] m'].
  simpl in Hs. destruct r as [b|e]; simpl; rewrite Hs.
  - exists (od_del k (od_set k p' (changedb (self m)))).
    split; [now destruct (self m)|].
    intros u Hu. rewrite od_get_del_other, od_get_set_other by congruence.
    reflexivity.
  - exists (od_set k p' (changedb (self m))).
    split; [now destruct (self m)|].
    intros u Hu. now rewrite od_get_set_other by congruence.
Qed.

Lemma for_each_delete_frame (l : list string) :
  forall m,
  exists db',
    self (snd (for_each delete_one l m)) = set_changedb db' (self m) /\
    forall u, ~ In u l -> od_get u db' = od_get u (changedb (self m)).
Proof.
  induction l as [|k l IH]; intros m.
  - exists (changedb (self m)). simpl. now rewrite set_changedb_same.
  - simpl. unfold bind.
    destruct (delete_one_frame k m) as (db1 & Hs1 & Hf1).
    destruct (delete_one k m) as [[[]|e] m1]; simpl in *.
    + destruct (IH m1) as (db2 & Hs2 & Hf2). exists db2.
      split; [rewrite Hs2, Hs1; now destruct (self m)|].
      intros u Hu. rewrite Hf2 by tauto. rewrite Hs1. simpl.
      apply Hf1. intros ->. tauto.
    + exists db1. split; [exact Hs1|].
      intros u Hu. apply Hf1. intros ->. tauto.
Qed.

Lemma syncrepl_delete_touches (uuids : list string) (m : machine) :
  exists db',
    self (snd (syncrepl_delete uuids m)) = set_changedb db' (self m) /\
    forall u, ~ In u uuids -> od_get u db' = od_get u (changedb (self m)).
Proof.
  unfold syncrepl_delete.
  destruct (for_each_delete_frame
              (filter (fun u => od_mem u (changedb (self m))) uuids) m)
    as (db' & Hs & Hf).
  exists db'. split; [exact Hs|].
  intros u Hu. apply Hf. intros Hin. apply filter_In in Hin. tauto.
Qed.

(** X12. [syncrepl_delete] touches nothing but [changedb], and in it only
    the identifiers it was given: whatever the call does, also when it
    raises, the map of every identifier outside the list is as before, and
    the phase, the cookie, the present set and the sink are unchanged. *)
Theorem syncrepl_delete_frame (uuids : list string) (m : machine) :
  exists db',
    self (snd (syncrepl_delete uuids m)) = set_changedb db' (self m) /\
    forall u, ~ In u uuids -> od_get u db' = od_get u (changedb (self m)).
Proof. exact (syncrepl_delete_touches uuids m). Qed.

Lemma syncrepl_delete_frame_witness :
  exists db',
    self (snd (syncrepl_delete ["A"; "B"] (three_entries "C" photo_attributes)))
    = set_changedb db' (self (three_entries "C" photo_attributes)) /\
    od_get "C" db'
    = od_get "C" (changedb (self (three_entries "C" photo_attributes))).
Proof.
  destruct (syncrepl_delete_frame ["A"; "B"]
              (three_entries "C" photo_attributes)) as (db' & Hs & Hf).
  exists db'. split; [exact Hs|].
  apply Hf. simpl. intuition discriminate.
Defined.

Lemma od_keys_set {V} (k : string) (v : V) (d : odict V) :
  od_keys (od_set k v d) = if od_mem k d then od_keys d else od_keys d ++ [k].
Proof.
  unfold od_keys, od_mem. induction d as [|[k' v'] d IH]; simpl.
  - reflexivity.
  - destruct (String.eqb k k') eqn:E; simpl; [reflexivity|].
    rewrite IH. now destruct (od_get k d).
Qed.

Lemma od_set_set {V} (k : string) (v v0 : V) (d : odict V) :
  od_set k v (od_set k v0 d) = od_set k v d.
Proof.
  induction d as [|[k' v'] d IH]; simpl.
  - now rewrite String.eqb_refl.
  - destruct (String.eqb k k') eqn:E; simpl; rewrite E; [reflexivity|].
    now rewrite IH.
Qed.

Lemma syncrepl_entry_touches (dn : text) (attributes : dict) (uuid : string)
    (m : machine) :
  exists db',
    self (snd (syncrepl_entry dn attributes uuid m))
    = set_changedb db' (self m) /\
    od_mem uuid db' = true /\
    od_keys db' = (if od_mem uuid (changedb (self m))
                   then od_keys (changedb (self m))
                   else od_keys (changedb (self m)) ++ [uuid]) /\
    forall u, u <> uuid -> od_get u db' = od_get u (changedb (self m)).
Proof.
  unfold syncrepl_entry.
  destruct (classify uuid (changedb (self m))) as [ct prev].
  set (attrs := od_set "dn" (PStr dn) attributes).
  assert (forall v, od_mem uuid (od_set uuid v (changedb (self m))) = true)
    as Hmem by (intros v; unfold od_mem; now rewrite od_get_set_same).
  destruct (sync_done (self (store uuid attrs m))).
  - pose proof (post_change_self (PStr dn) attrs prev ct (store uuid attrs m))
      as Hs.
    destruct (post_change (PStr dn) attrs prev ct (store uuid attrs m))
      as [[[a' p'] r] m']. simpl in *.
    exists (od_set uuid a' (changedb (self m))).
    rewrite Hs. simpl. rewrite od_set_set.
    split; [now destruct (self m)|]. split; [apply Hmem|].
    split; [apply od_keys_set|].
    intros u Hu. now rewrite od_get_set_other by congruence.
  - exists (od_set uuid attrs (changedb (self m))). simpl.
    split; [now destruct (self m)|]. split; [apply Hmem|].
    split; [apply od_keys_set|].
    intros u Hu. now rewrite od_get_set_other by congruence.
Qed.

(** X13. [syncrepl_entry] touches nothing but the slot of its identifier:
    in either phase, and also when the publication raises, the identifier
    is stored afterwards, a new identifier is appended after the known ones
    and a known one keeps its place, the map of every other identifier is
    as before, and the phase, the cookie, the present set and the sink are
    unchanged. *)
Theorem syncrepl_entry_frame (dn : text) (attributes : dict) (uuid : string)
    (m : machine) :
  exists db',
    self (snd (syncrepl_entry dn attributes uuid m))
    = set_changedb db' (self m) /\
    od_mem uuid db' = true /\
    od_keys db' = (if od_mem uuid (changedb (self m))
                   then od_keys (changedb (self m))
                   else od_keys (changedb (self m)) ++ [uuid]) /\
    forall u, u <> uuid -> od_get u db' = od_get u (changedb (self m)).
Proof. exact (syncrepl_entry_touches dn attributes uuid m). Qed.

Lemma syncrepl_entry_frame_witness :
  exists db',
    self (snd (syncrepl_entry (txt "cn=b") photo_attributes "u2" alice_state))
    = set_changedb db' (self alice_state) /\
    od_get "u1" db' = od_get "u1" (changedb (self alice_state)).
Proof.
  destruct (syncrepl_entry_frame (txt "cn=b") photo_attributes "u2"
              alice_state) as (db' & Hs & _ & _ & Hf).
  exists db'. split; [exact Hs|].
  apply Hf. discriminate.
Defined.

Lemma dispatch_touches (cb : callback) (m : machine) :
  exists db' p',
    self (snd (dispatch cb m)) =
    match cb with
    | OnRefreshDone => set_sync_done true
    | OnSetCookie k => set_cookie (Some k)
    | _ => fun c => c
    end (set_presentUUIDs p' (set_changedb db' (self m))).
Proof.
  destruct cb as [dn a u|us|[us|] [|]| |k]; cbn [dispatch].
  - destruct (syncrepl_entry_touches dn a u m) as (db' & Hs & _).
    exists db', (presentUUIDs (self m)). rewrite Hs. now destruct (self m).
  - destruct (syncrepl_delete_touches us m) as (db' & Hs & _).
    exists db', (presentUUIDs (self m)). rewrite Hs. now destruct (self m).
  - cbn [syncrepl_present].
    destruct (syncrepl_delete_touches us m) as (db' & Hs & _).
    exists db', (presentUUIDs (self m)). rewrite Hs. now destruct (self m).
  - destruct (mark_present us m) as (p & Hrun & _). rewrite Hrun.
    exists (changedb (self m)), p. simpl. now destruct (self m).
  - exists (changedb (self m)), []. simpl. now destruct (self m).
  - cbn [syncrepl_present negb]. unfold bind.
    destruct (syncrepl_delete_touches (inferred_deletions (self m)) m)
      as (db' & Hs & _).
    unfold inferred_deletions in Hs.
    destruct (syncrepl_delete _ m) as [[[]|e] m']; simpl in *.
    + exists db', []. rewrite Hs. now destruct (self m).
    + exists db', (presentUUIDs (self m)). rewrite Hs. now destruct (self m).
  - exists (changedb (self m)), (presentUUIDs (self m)). simpl.
    now destruct (self m).
  - exists (changedb (self m)), (presentUUIDs (self m)). simpl.
    now destruct (self m).
Qed.

(** X5. The phase flag moves one way. [syncrepl_refreshdone] sets it, and
    no other callback changes it, whether it returns or raises; so once
    changes are published they stay published for the rest of the session,
    whatever callbacks follow. *)
Theorem sync_done_moves_one_way (cb : callback) (cbs : list callback)
    (m : machine) :
  sync_done (self (snd (dispatch cb m)))
  = match cb with OnRefreshDone => true | _ => sync_done (self m) end /\
  (sync_done (self m) = true -> sync_done (self (snd (run cbs m))) = true).
Proof.
  assert (forall c x, sync_done (self (snd (dispatch c x)))
                      = match c with OnRefreshDone => true
                                   | _ => sync_done (self x) end) as Hone.
  { intros c x. destruct (dispatch_touches c x) as (db' & p' & ->).
    now destruct c. }
  split; [apply Hone|].
  unfold run. apply (for_each_inv (fun x => sync_done (self x) = true)).
  intros c x Hx. rewrite Hone. now destruct c.
Qed.

Lemma sync_done_moves_one_way_witness :
  sync_done (self (snd (run [OnRefreshDone] boot))) = true /\
  sync_done (self (snd (run [OnDelete ["u1"]; OnPresent None false]
                            (snd (run [OnRefreshDone] boot))))) = true.
Proof.
  split; [reflexivity|].
  apply (proj2 (sync_done_moves_one_way OnRefreshDone
                  [OnDelete ["u1"]; OnPresent None false]
                  (snd (run [OnRefreshDone] boot)))).
  reflexivity.
Defined.

(** X6. The cookie is kept as it was set. [syncrepl_get_cookie] after
    [syncrepl_set_cookie] returns the cookie given, with the rest of the
    session untouched, and no other callback changes the cookie, whether it
    returns or raises. *)
Theorem cookie_kept (cb : callback) (k : string) (m : machine) :
  cookie (self (snd (dispatch cb m)))
  = match cb with OnSetCookie c => Some c | _ => cookie (self m) end /\
  (syncrepl_set_cookie k ;;; syncrepl_get_cookie) m
  = (Ok (Some k), with_self (set_cookie (Some k)) m) /\
  fst (syncrepl_get_cookie m) = Ok (cookie (self m)).
Proof.
  split; [|split; reflexivity].
  destruct (dispatch_touches cb m) as (db' & p' & ->). now destruct cb.
Qed.

(** ** Published entries *)

Lemma syncrepl_entry_persisting (dn : text) (attributes : dict)
    (uuid : string) (m : machine) :
  sync_done (self m) = true ->
  decodable (PDict (od_set "dn" (PStr dn) attributes)) = true ->
  decodable (PDict (snd (classify uuid (changedb (self m))))) = true ->
  syncrepl_entry dn attributes uuid m
  = (Ok tt, after_entry dn attributes uuid m).
Proof.
  intros Hs Ha Hp.
  pose proof (stringify_dict_outcome (od_set "dn" (PStr dn) attributes)) as Ca.
  rewrite Ha in Ca. destruct Ca as [a' Ca].
  pose proof (stringify_dict_outcome (snd (classify uuid (changedb (self m)))))
    as Cp.
  rewrite Hp in Cp. destruct Cp as [p' Cp].
  unfold syncrepl_entry, after_entry, entry_payload, entry_event.
  destruct (classify uuid (changedb (self m))) as [ct prev]. simpl in Cp.
  cbn [store with_self self sync_done set_changedb]. rewrite Hs.
  unfold post_change, build_js. simpl stringify. rewrite Cp, Ca. simpl.
  destruct m as [c cl pt sl]. destruct c as [ck sd db pr url].
  unfold store, with_self, log_put, log_call, set_changedb. simpl.
  rewrite od_set_set, ?Cp, ?Ca. reflexivity.
Qed.

(** X7. In the persisting phase an entry whose maps convert is stored and
    published in one step: the call returns, hands [post_change] exactly
    one event, ['add'] with an empty previous map or ['modify'] with the
    map stored before, sends exactly one request with the converted maps to
    the sink, and stores the new map in its converted form. *)
Theorem syncrepl_entry_publishes (dn : text) (attributes : dict)
    (uuid : string) (m : machine) :
  sync_done (self m) = true ->
  decodable (PDict (od_set "dn" (PStr dn) attributes)) = true ->
  decodable (PDict (snd (classify uuid (changedb (self m))))) = true ->
  syncrepl_entry dn attributes uuid m
  = (Ok tt, after_entry dn attributes uuid m).
Proof. exact (syncrepl_entry_persisting dn attributes uuid m). Qed.

Lemma syncrepl_entry_publishes_witness :
  sync_done (self (snd (run [OnRefreshDone] alice_state))) = true /\
  syncrepl_entry (txt "cn=alice") [("cn", PList [PBytes [x62]])] "u1"
    (snd (run [OnRefreshDone] alice_state))
  = (Ok tt,
     after_entry (txt "cn=alice") [("cn", PList [PBytes [x62]])] "u1"
       (snd (run [OnRefreshDone] alice_state))).
Proof.
  split; [reflexivity|].
  apply (syncrepl_entry_publishes (txt "cn=alice")
           [("cn", PList [PBytes [x62]])] "u1"
           (snd (run [OnRefreshDone] alice_state))); reflexivity.
Defined.

(** X8. In the persisting phase an entry whose new map or previous map
    does not convert is stored all the same: the store comes before the
    publication, so the call raises [UnicodeDecodeError], the event has
    reached [post_change], nothing is sent, and the identifier is in
    [changedb] afterwards. *)
Theorem syncrepl_entry_stores_before_raising (dn : text) (attributes : dict)
    (uuid : string) (m : machine) :
  sync_done (self m) = true ->
  decodable (PDict (snd (classify uuid (changedb (self m)))))
  && decodable (PDict (od_set "dn" (PStr dn) attributes)) = false ->
  fst (syncrepl_entry dn attributes uuid m) = Raise UnicodeDecodeError /\
  calls (snd (syncrepl_entry dn attributes uuid m))
  = calls m ++ [entry_event dn attributes uuid (changedb (self m))] /\
  puts (snd (syncrepl_entry dn attributes uuid m)) = puts m /\
  od_mem uuid (changedb (self (snd (syncrepl_entry dn attributes uuid m))))
  = true.
Proof.
  intros Hs Hd.
  split; [|split; [now apply syncrepl_entry_event|split]].
  - unfold syncrepl_entry.
    pose proof (build_js_outcome (PStr dn) (od_set "dn" (PStr dn) attributes)
                  (snd (classify uuid (changedb (self m))))
                  (fst (classify uuid (changedb (self m))))) as Ho.
    destruct (classify uuid (changedb (self m))) as [ct prev].
    cbn [store with_self self sync_done set_changedb]. rewrite Hs.
    simpl in Ho, Hd. rewrite Hd in Ho. simpl in Ho.
    unfold post_change.
    destruct (build_js _ _ _ _) as [[a' p'] r]. simpl in Ho. subst r.
    reflexivity.
  - unfold syncrepl_entry.
    pose proof (build_js_outcome (PStr dn) (od_set "dn" (PStr dn) attributes)
                  (snd (classify uuid (changedb (self m))))
                  (fst (classify uuid (changedb (self m))))) as Ho.
    destruct (classify uuid (changedb (self m))) as [ct prev].
    cbn [store with_self self sync_done set_changedb]. rewrite Hs.
    simpl in Ho, Hd. rewrite Hd in Ho. simpl in Ho.
    unfold post_change.
    destruct (build_js _ _ _ _) as [[a' p'] r]. simpl in Ho. subst r.
    reflexivity.
  - destruct (syncrepl_entry_touches dn attributes uuid m)
      as (db' & -> & H & _).
    exact H.
Qed.

Lemma syncrepl_entry_stores_before_raising_witness :
  fst (syncrepl_entry (txt "cn=bob") photo_attributes "u2"
         (snd (run [OnRefreshDone] alice_state)))
  = Raise UnicodeDecodeError /\
  calls (snd (syncrepl_entry (txt "cn=bob") photo_attributes "u2"
                (snd (run [OnRefreshDone] alice_state))))
  = calls (snd (run [OnRefreshDone] alice_state))
    ++ [entry_event (txt "cn=bob") photo_attributes "u2"
          (changedb (self (snd (run [OnRefreshDone] alice_state))))] /\
  puts (snd (syncrepl_entry (txt "cn=bob") photo_attributes "u2"
               (snd (run [OnRefreshDone] alice_state))))
  = puts (snd (run [OnRefreshDone] alice_state)) /\
  od_mem "u2"
    (changedb (self (snd (syncrepl_entry (txt "cn=bob") photo_attributes "u2"
                            (snd (run [OnRefreshDone] alice_state))))))
  = true.
Proof.
  apply (syncrepl_entry_stores_before_raising (txt "cn=bob") photo_attributes
           "u2" (snd (run [OnRefreshDone] alice_state))); reflexivity.
Defined.

Lemma decodable_after_conversion (d d' : dict) :
  stringify_dict d = (d', None) -> decodable (PDict d') = true.
Proof.
  intros H. apply stringify_dict_fixed in H.
  pose proof (stringify_dict_outcome d') as Ho.
  destruct (decodable (PDict d')); [reflexivity|].
  destruct Ho as [d'' Ho]. rewrite H in Ho. discriminate.
Qed.

Lemma od_mem_existsb {V} (u : string) (d : odict V) :
  od_mem u d = existsb (String.eqb u) (od_keys d).
Proof.
  unfold od_mem, od_keys. induction d as [|[k v] d IH]; simpl; [reflexivity|].
  destruct (String.eqb u k); [reflexivity|exact IH].
Qed.

Lemma entry_kinds_ext (cs : list entry_call) :
  forall k1 k2,
    (forall x, existsb (String.eqb x) k1 = existsb (String.eqb x) k2) ->
    entry_kinds k1 cs = entry_kinds k2 cs.
Proof.
  induction cs as [|c cs IH]; intros k1 k2 H; simpl; [reflexivity|].
  rewrite (H (entry_uuid c)). f_equal. apply IH.
  intros x. simpl. now rewrite (H x).
Qed.

Lemma existsb_keys_set {V} (x u : string) (v : V) (d : odict V) :
  existsb (String.eqb x) (od_keys (od_set u v d))
  = existsb (String.eqb x) (u :: od_keys d).
Proof.
  rewrite od_keys_set. simpl.
  destruct (od_mem u d) eqn:E.
  - destruct (String.eqb x u) eqn:Ex; [|reflexivity].
    apply String.eqb_eq in Ex. subst x. now rewrite <- od_mem_existsb.
  - rewrite existsb_app. simpl. rewrite orb_false_r. apply orb_comm.
Qed.

Lemma entries_persisting (cs : list entry_call) :
  forall m,
    sync_done (self m) = true ->
    all_decodable (changedb (self m)) = true ->
    forallb (fun c => decodable (PDict (stored_map c))) cs = true ->
    exists m',
      run (entries cs) m = (Ok tt, m') /\
      (exists new,
          calls m' = calls m ++ new /\
          map ev_change_type new
          = entry_kinds (od_keys (changedb (self m))) cs /\
          map ev_dn new = map (fun c => PStr (fst (fst c))) cs) /\
      List.length (puts m') = List.length (puts m) + List.length cs /\
      sync_done (self m') = true /\
      all_decodable (changedb (self m')) = true.
Proof.
  induction cs as [|[[dn a] u] cs IH]; intros m Hs Hdb Hcs.
  - exists m. split; [reflexivity|]. split.
    + exists []. now rewrite app_nil_r.
    + simpl. split; [lia|tauto].
  - simpl in Hcs. apply andb_true_iff in Hcs. destruct Hcs as [Hc Hcs].
    assert (decodable (PDict (snd (classify u (changedb (self m))))) = true)
      as Hprev.
    { unfold classify.
      destruct (od_get u (changedb (self m))) as [stored|] eqn:E;
        [|reflexivity].
      apply (forallb_od_get (fun d => decodable (PDict d)) u stored _ Hdb E). }
    pose proof (syncrepl_entry_persisting dn a u m Hs Hc Hprev) as Hstep.
    assert (all_decodable (changedb (self (after_entry dn a u m))) = true)
      as Hdb'.
    { unfold after_entry. simpl.
      apply (forallb_od_set (fun d => decodable (PDict d))); [|exact Hdb].
      pose proof (stringify_dict_outcome (od_set "dn" (PStr dn) a)) as Ho.
      simpl in Hc. rewrite Hc in Ho. destruct Ho as [a' Ho].
      rewrite Ho. simpl. apply (decodable_after_conversion _ _ Ho). }
    destruct (IH (after_entry dn a u m) Hs Hdb' Hcs)
      as (m' & Hrun & (new & Hcalls & Hkinds & Hdns) & Hputs & Hs' & Hd').
    exists m'. split; [|split; [|split; [|tauto]]].
    + cbn [entries map]. rewrite run_cons. cbn [dispatch].
      rewrite Hstep. exact Hrun.
    + exists (entry_event dn a u (changedb (self m)) :: new).
      split; [|split].
      * rewrite Hcalls. unfold after_entry. simpl.
        now rewrite <- app_assoc.
      * simpl. rewrite Hkinds. f_equal.
        -- unfold classify, entry_uuid. simpl.
           rewrite <- od_mem_existsb. unfold od_mem.
           now destruct (od_get u (changedb (self m))).
        -- unfold after_entry. simpl. apply entry_kinds_ext.
           intros x. apply existsb_keys_set.
      * simpl. now rewrite Hdns.
    + rewrite Hputs. unfold after_entry. simpl.
      rewrite length_app. simpl. lia.
Qed.

(** X9. In the persisting phase, when every stored map and every arriving
    map converts, a sequence of entries is published one by one and in
    order: every call returns, [post_change] receives exactly one event per
    call, under the name of the call, of kind ['modify'] when the
    identifier was stored before or has occurred earlier in the sequence and
    ['add'] otherwise, one request is sent per call, and the stored maps
    convert again afterwards, so that no later publication of them can
    raise. *)
Theorem entries_published_in_order (cs : list entry_call) (m : machine) :
  sync_done (self m) = true ->
  all_decodable (changedb (self m)) = true ->
  forallb (fun c => decodable (PDict (stored_map c))) cs = true ->
  exists m',
    run (entries cs) m = (Ok tt, m') /\
    (exists new,
        calls m' = calls m ++ new /\
        map ev_change_type new
        = entry_kinds (od_keys (changedb (self m))) cs /\
        map ev_dn new = map (fun c => PStr (fst (fst c))) cs) /\
    List.length (puts m') = List.length (puts m) + List.length cs /\
    sync_done (self m') = true /\
    all_decodable (changedb (self m')) = true.
Proof. exact (entries_persisting cs m). Qed.

Lemma entries_published_in_order_witness :
  sync_done (self (snd (run [OnRefreshDone] alice_state))) = true /\
  entry_kinds (od_keys (changedb (self (snd (run [OnRefreshDone] alice_state)))))
    [(txt "cn=alice", alice_attributes, "u1");
     (txt "cn=bob", alice_attributes, "u2");
     (txt "cn=bob", alice_attributes, "u2")]
  = ["modify"; "add"; "modify"] /\
  exists m',
    run (entries [(txt "cn=alice", alice_attributes, "u1");
                  (txt "cn=bob", alice_attributes, "u2");
                  (txt "cn=bob", alice_attributes, "u2")])
        (snd (run [OnRefreshDone] alice_state)) = (Ok tt, m') /\
    List.length (puts m') = 3.
Proof.
  split; [reflexivity|]. split; [reflexivity|].
  destruct (entries_published_in_order
              [(txt "cn=alice", alice_attributes, "u1");
               (txt "cn=bob", alice_attributes, "u2");
               (txt "cn=bob", alice_attributes, "u2")]
              (snd (run [OnRefreshDone] alice_state))
              eq_refl eq_refl eq_refl)
    as (m' & Hrun & _ & Hputs & _).
  exists m'. split; [exact Hrun|exact Hputs].
Defined.

(** ** Where and how often a change is sent *)

Lemma sent_to_sink_refl (m : machine) : sent_to_sink m m.
Proof.
  split; [reflexivity|]. exists []. rewrite app_nil_r. now split.
Qed.

Lemma sent_to_sink_trans (m1 m2 m3 : machine) :
  sent_to_sink m1 m2 -> sent_to_sink m2 m3 -> sent_to_sink m1 m3.
Proof.
  intros (Hu & n1 & H1 & F1) (Hu' & n2 & H2 & F2).
  split; [congruence|]. exists (n1 ++ n2).
  rewrite H2, H1, app_assoc. split; [reflexivity|].
  apply Forall_app. split; [exact F1|]. rewrite Hu in F2. exact F2.
Qed.

Lemma post_change_sent (dn : pyval) (a p : dict) (ct : string) (m : machine) :
  sent_to_sink m (snd (post_change dn a p ct m)).
Proof.
  unfold post_change.
  destruct (build_js dn a p ct) as [[a' p'] [js|e]]; simpl.
  - split; [reflexivity|]. eexists. split; [reflexivity|].
    constructor; [reflexivity|constructor].
  - split; [reflexivity|]. exists []. simpl. rewrite app_nil_r. now split.
Qed.

Lemma delete_one_sent (k : string) (m : machine) :
  sent_to_sink m (snd (delete_one k m)).
Proof.
  unfold delete_one.
  destruct (od_item k (changedb (self m))) as [stored|e];
    [|apply sent_to_sink_refl].
  destruct (od_item "dn" stored) as [dn|e]; [|apply sent_to_sink_refl].
  pose proof (post_change_sent dn [] stored "delete" m) as H.
  destruct (post_change dn [] stored "delete" m) as [[[a' p'] r] m'].
  simpl in H. destruct r; exact H.
Qed.

Lemma syncrepl_entry_sent (dn : text) (a : dict) (u : string) (m : machine) :
  sent_to_sink m (snd (syncrepl_entry dn a u m)).
Proof.
  unfold syncrepl_entry.
  destruct (classify u (changedb (self m))) as [ct prev].
  destruct (sync_done _);
    [|split; [reflexivity|exists []; simpl; rewrite app_nil_r; now split]].
  pose proof (post_change_sent (PStr dn) (od_set "dn" (PStr dn) a) prev ct
                (store u (od_set "dn" (PStr dn) a) m)) as H.
  destruct (post_change _ _ _ _ _) as [[[a' p'] r] m']. exact H.
Qed.

Lemma dispatch_sent (cb : callback) (m : machine) :
  sent_to_sink m (snd (dispatch cb m)).
Proof.
  assert (forall us x, sent_to_sink x (snd (syncrepl_delete us x))) as Hdel.
  { intros us x. unfold syncrepl_delete.
    apply for_each_rel;
      [exact sent_to_sink_refl|exact sent_to_sink_trans|exact delete_one_sent]. }
  destruct cb as [dn a u|us|[us|] [|]| |k]; cbn [dispatch].
  - apply syncrepl_entry_sent.
  - apply Hdel.
  - apply Hdel.
  - destruct (mark_present us m) as (p & Hrun & _). rewrite Hrun.
    split; [reflexivity|exists []; simpl; rewrite app_nil_r; now split].
  - split; [reflexivity|exists []; simpl; rewrite app_nil_r; now split].
  - cbn [syncrepl_present negb]. unfold bind.
    pose proof (Hdel (inferred_deletions (self m)) m) as H.
    unfold inferred_deletions in H.
    destruct (syncrepl_delete _ m) as [[[]|e] m']; exact H.
  - split; [reflexivity|exists []; simpl; rewrite app_nil_r; now split].
  - split; [reflexivity|exists []; simpl; rewrite app_nil_r; now split].
Qed.

Lemma poll_loop_sent (steps : list poll_step) :
  forall m, sent_to_sink m (snd (poll_loop steps m)).
Proof.
  induction steps as [|st steps IH]; intros m; simpl;
    [apply sent_to_sink_refl|].
  pose proof (for_each_rel sent_to_sink dispatch sent_to_sink_refl
                sent_to_sink_trans dispatch_sent (delivered st) m) as H.
  fold (run (delivered st)) in H.
  destruct (run (delivered st) m) as [[[]|e] m']; simpl in *; [|exact H].
  destruct (returns st) as [[|]|e]; simpl; [|exact H|exact H].
  apply (sent_to_sink_trans _ _ _ H (IH m')).
Qed.

Lemma connect_sink (cfg : config) (m : machine) :
  pubsub_url (self (connect cfg m)) = sink cfg /\
  puts (connect cfg m) = puts m.
Proof.
  unfold connect, sink. destruct (pubsuburl cfg) as [url|]; [|now split].
  destruct (String.eqb url ""); now split.
Qed.

(** X10. Every request of a connection goes to one sink. A connection
    starts with the URL of the configuration, or with the default of
    [__init__] when the configuration has none or an empty one, and no
    callback changes it: whatever the polls of the connection deliver, each
    request sent goes to that URL. *)
Theorem requests_go_to_the_sink (cfg : config) (steps : list poll_step)
    (m : machine) :
  pubsub_url (self (connect cfg m)) = sink cfg /\
  pubsub_url (self (snd (poll_loop steps (connect cfg m)))) = sink cfg /\
  exists new,
    puts (snd (poll_loop steps (connect cfg m))) = puts m ++ new /\
    Forall (fun p => fst p = sink cfg) new.
Proof.
  destruct (connect_sink cfg m) as [Hu Hp].
  destruct (poll_loop_sent steps (connect cfg m)) as (Hu' & new & Hn & Hf).
  split; [exact Hu|]. split; [congruence|].
  exists new. rewrite Hn, Hp. split; [reflexivity|].
  now rewrite Hu in Hf.
Qed.

Lemma post_change_logs (dn : pyval) (a p : dict) (ct : string) (m : machine) :
  logs_agree m ->
  match snd (fst (post_change dn a p ct m)) with
  | Ok _ => logs_agree (snd (post_change dn a p ct m))
  | Raise e =>
    map payload_of (calls (snd (post_change dn a p ct m)))
    = map (fun q => Ok (snd q)) (puts (snd (post_change dn a p ct m)))
      ++ [Raise e]
  end.
Proof.
  unfold logs_agree, post_change, payload_of. intros H.
  destruct (build_js dn a p ct) as [[a' p'] [js|e]] eqn:E; simpl;
    rewrite !map_app, H; simpl; rewrite E; reflexivity.
Qed.

Lemma delete_one_logs (k : string) (m : machine) :
  logs_agree m -> logs_after (fst (delete_one k m)) (snd (delete_one k m)).
Proof.
  intros H. unfold delete_one.
  destruct (od_item k (changedb (self m))) as [stored|e]; [|now left].
  destruct (od_item "dn" stored) as [dn|e]; [|now left].
  pose proof (post_change_logs dn [] stored "delete" m H) as Hl.
  destruct (post_change dn [] stored "delete" m) as [[[a' p'] r] m'].
  simpl in Hl. destruct r as [b|e]; simpl; [exact Hl|].
  right. exists e. exact Hl.
Qed.

Lemma syncrepl_entry_logs (dn : text) (a : dict) (u : string) (m : machine) :
  logs_agree m ->
  logs_after (fst (syncrepl_entry dn a u m)) (snd (syncrepl_entry dn a u m)).
Proof.
  intros H. unfold syncrepl_entry.
  destruct (classify u (changedb (self m))) as [ct prev].
  destruct (sync_done _); [|exact H].
  pose proof (post_change_logs (PStr dn) (od_set "dn" (PStr dn) a) prev ct
                (store u (od_set "dn" (PStr dn) a) m) H) as Hl.
  destruct (post_change _ _ _ _ _) as [[[a' p'] r] m'].
  simpl in Hl. destruct r as [b|e]; simpl; [exact Hl|].
  right. exists e. exact Hl.
Qed.

Lemma for_each_logs {X} (f : X -> M unit) :
  (forall x m, logs_agree m -> logs_after (fst (f x m)) (snd (f x m))) ->
  forall l m, logs_agree m ->
              logs_after (fst (for_each f l m)) (snd (for_each f l m)).
Proof.
  intros Hstep l. induction l as [|x l IH]; intros m Hm; simpl; [exact Hm|].
  unfold bind. pose proof (Hstep x m Hm) as H.
  destruct (f x m) as [[[]|e] m']; simpl in *; [now apply IH|exact H].
Qed.

Lemma dispatch_logs (cb : callback) (m : machine) :
  logs_agree m -> logs_after (fst (dispatch cb m)) (snd (dispatch cb m)).
Proof.
  intros Hm.
  assert (forall us x, logs_agree x ->
            logs_after (fst (syncrepl_delete us x))
                       (snd (syncrepl_delete us x))) as Hdel.
  { intros us x. unfold syncrepl_delete.
    apply for_each_logs. exact delete_one_logs. }
  destruct cb as [dn a u|us|[us|] [|]| |k]; cbn [dispatch].
  - now apply syncrepl_entry_logs.
  - now apply Hdel.
  - now apply Hdel.
  - destruct (mark_present us m) as (p & Hrun & _). rewrite Hrun. exact Hm.
  - exact Hm.
  - cbn [syncrepl_present negb]. unfold bind.
    pose proof (Hdel (inferred_deletions (self m)) m Hm) as H.
    unfold inferred_deletions in H.
    destruct (syncrepl_delete _ m) as [[[]|e] m']; exact H.
  - exact Hm.
  - exact Hm.
Qed.

(** X11. One request per event. Whatever callbacks a session has
    processed, the requests sent are the conversions of the events handed
    to [post_change], each sent once and in the same order; when the last
    callback raised, at most the last event is without a request, the one
    whose conversion raised. *)
Theorem one_request_per_event (cbs : list callback) :
  logs_after (fst (run cbs boot)) (snd (run cbs boot)).
Proof.
  unfold run. apply for_each_logs; [exact dispatch_logs|reflexivity].
Qed.

(** ** Presence, in general *)

(** X14. Marks accumulate and cost nothing. A batch of present
    identifiers returns and changes the present set only: afterwards an
    identifier is marked exactly when it was marked before or is in the
    batch, while the stored maps, the phase and the logs are as before. The
    end marker with [refreshDeletes] deletes nothing and clears the marks. *)
Theorem syncrepl_present_marks (uuids : list string) (m : machine) :
  (exists p,
      syncrepl_present (Some uuids) false m
      = (Ok tt, with_self (set_presentUUIDs p) m) /\
      forall u, od_mem u p
                = od_mem u (presentUUIDs (self m))
                  || existsb (String.eqb u) uuids) /\
  syncrepl_present None true m = (Ok tt, with_self (set_presentUUIDs []) m).
Proof.
  split; [apply mark_present|reflexivity].
Qed.

Lemma end_marker_infers (m : machine) :
  NoDup (od_keys (changedb (self m))) ->
  forallb (deletable (changedb (self m))) (inferred_deletions (self m))
  = true ->
  syncrepl_present None false m
  = (Ok tt,
     with_self (set_presentUUIDs [])
       (after_delete
          (filter (fun u => od_mem u (changedb (self m)))
                  (inferred_deletions (self m))) m)).
Proof.
  intros Hnd Hall. cbn [syncrepl_present negb]. unfold bind.
  fold (inferred_deletions (self m)).
  rewrite (syncrepl_delete_known (inferred_deletions (self m)) m);
    [reflexivity| |exact Hall].
  unfold inferred_deletions. now apply NoDup_filter.
Qed.

(** X15. Deletion inference in general. When the end marker of a presence
    phase arrives without [refreshDeletes], and the stored maps of the
    identifiers that were not marked convert, the call returns and deletes
    exactly those: an identifier is kept if and only if it was marked
    present or is the key ['ldap_cookie']; one deletion per dropped
    identifier reaches [post_change], in the order in which [changedb]
    holds them; and the present set is empty afterwards. *)
Theorem end_marker_deletes_unmarked (m : machine) :
  NoDup (od_keys (changedb (self m))) ->
  forallb (deletable (changedb (self m))) (inferred_deletions (self m))
  = true ->
  exists m',
    syncrepl_present None false m = (Ok tt, m') /\
    presentUUIDs (self m') = [] /\
    calls m'
    = calls m ++ map delete_event
                     (known_maps (changedb (self m))
                                 (inferred_deletions (self m))) /\
    forall u,
      od_get u (changedb (self m'))
      = if od_mem u (presentUUIDs (self m)) || String.eqb u "ldap_cookie"
        then od_get u (changedb (self m))
        else None.
Proof.
  intros Hnd Hall. eexists. split; [now apply end_marker_infers|].
  split; [reflexivity|]. split.
  - unfold after_delete. simpl. now rewrite known_maps_filter.
  - intros u.
    change (od_get u (changedb (self (after_delete
              (filter (fun k => od_mem k (changedb (self m)))
                      (inferred_deletions (self m))) m)))
            = if od_mem u (presentUUIDs (self m)) || String.eqb u "ldap_cookie"
              then od_get u (changedb (self m)) else None).
    rewrite od_get_after_delete.
    destruct (existsb (String.eqb u) (inferred_deletions (self m))) eqn:E.
    + apply existsb_eqb_In in E. unfold inferred_deletions in E.
      apply filter_In in E. destruct E as [_ E].
      apply andb_true_iff in E. destruct E as [E1 E2].
      apply negb_true_iff in E1, E2. now rewrite E1, E2.
    + destruct (od_mem u (presentUUIDs (self m)) || String.eqb u "ldap_cookie")
        eqn:K; [reflexivity|].
      apply orb_false_iff in K. destruct K as [K1 K2].
      destruct (od_get u (changedb (self m))) as [d|] eqn:G; [|reflexivity].
      assert (In u (inferred_deletions (self m))) as Hin.
      { unfold inferred_deletions. apply filter_In. split.
        - apply od_mem_keys. unfold od_mem. now rewrite G.
        - now rewrite K1, K2. }
      apply existsb_eqb_In in Hin. congruence.
Qed.

Lemma end_marker_deletes_unmarked_witness :
  exists m',
    syncrepl_present None false
      (snd (run [OnPresent (Some ["B"]) false]
                (three_entries "ldap_cookie" alice_attributes)))
    = (Ok tt, m') /\
    od_keys (changedb (self m')) = ["B"; "ldap_cookie"] /\
    presentUUIDs (self m') = [].
Proof.
  destruct (end_marker_deletes_unmarked
              (snd (run [OnPresent (Some ["B"]) false]
                        (three_entries "ldap_cookie" alice_attributes))))
    as (m' & Hrun & Hp & _).
  - repeat constructor; simpl; intuition discriminate.
  - reflexivity.
  - exists m'. split; [exact Hrun|]. split; [|exact Hp].
    assert (m' = snd (syncrepl_present None false
              (snd (run [OnPresent (Some ["B"]) false]
                        (three_entries "ldap_cookie" alice_attributes)))))
      as -> by now rewrite Hrun.
    reflexivity.
Defined.

(** X18. An identifier listed twice. The list is checked against
    [changedb] once, before the loop: when a stored identifier whose map
    converts heads the list twice, its first turn publishes the deletion and
    removes it, and its second turn raises [KeyError]; the rest of the list
    is not processed. *)
Theorem syncrepl_delete_listed_twice (u : string) (stored : dict)
    (rest : list string) (m : machine) :
  od_get u (changedb (self m)) = Some stored ->
  has_dn stored = true ->
  decodable (PDict stored) = true ->
  syncrepl_delete (u :: u :: rest) m = (Raise KeyError, after_delete [u] m).
Proof.
  intros Hget Hdn Hdec. unfold syncrepl_delete. cbn [filter].
  assert (od_mem u (changedb (self m)) = true) as ->
      by (unfold od_mem; now rewrite Hget).
  cbn [for_each]. unfold bind at 1.
  rewrite (delete_one_known u stored m Hget Hdn Hdec).
  unfold bind at 1. unfold delete_one at 1, od_item.
  assert (od_get u (changedb (self (after_delete [u] m))) = None) as ->;
    [|reflexivity].
  unfold after_delete. simpl. apply od_get_del_same.
Qed.

Lemma syncrepl_delete_listed_twice_witness :
  syncrepl_delete ["u1"; "u1"; "u2"] alice_state
  = (Raise KeyError, after_delete ["u1"] alice_state).
Proof.
  apply (syncrepl_delete_listed_twice "u1"
           (od_set "dn" (PStr (txt "cn=alice")) alice_attributes)
           ["u2"] alice_state); reflexivity.
Defined.

(** ** The supervisor, further *)

(** X16. A search that ends is restarted at once. When [syncrepl_poll]
    returns a false value the poll loop ends without an exception, and
    [main] goes back to the head of its loop without sleeping: it builds a
    new client and binds again straight away. *)
Theorem exhausted_search_reconnects_at_once (cfg : config) (a : attempt)
    (rest : list attempt) (m m1 : machine) (msgid : N) :
  constructed a = Ok tt ->
  bound a = Ok tt ->
  searching a = Ok msgid ->
  poll_loop (polls a) (connect cfg m) = (Exhausted, m1) ->
  main_loop cfg (a :: rest) m = main_loop cfg rest m1 /\
  slept m1 = slept m /\
  (forall parse s u,
      ldapurl cfg = Some s -> parse s = Ok u ->
      main cfg parse (a :: rest) m = main cfg parse rest m1).
Proof.
  intros Hc Hb Hs Hp.
  assert (main_loop cfg (a :: rest) m = main_loop cfg rest m1) as Hloop
      by (simpl; unfold iteration; now rewrite Hc, Hb, Hs, Hp).
  split; [exact Hloop|]. split.
  - pose proof (poll_loop_slept (polls a) (connect cfg m)) as H.
    rewrite Hp in H. simpl in H. rewrite H.
    apply (connect_fresh cfg m).
  - intros parse s u H1 H2. unfold main. now rewrite H1, H2.
Qed.

Lemma exhausted_search_reconnects_at_once_witness :
  main_loop sample_config [attempt_exhausted; attempt_exhausted] boot
  = main_loop sample_config [attempt_exhausted]
      (snd (poll_loop (polls attempt_exhausted) (connect sample_config boot)))
  /\
  slept (snd (poll_loop (polls attempt_exhausted) (connect sample_config boot)))
  = slept boot /\
  main sample_config parse_any [attempt_exhausted; attempt_exhausted] boot
  = main sample_config parse_any [attempt_exhausted]
      (snd (poll_loop (polls attempt_exhausted) (connect sample_config boot))).
Proof.
  destruct (exhausted_search_reconnects_at_once sample_config
              attempt_exhausted [attempt_exhausted] boot
              (snd (poll_loop (polls attempt_exhausted)
                      (connect sample_config boot))) 1%N
              eq_refl eq_refl eq_refl eq_refl) as (H1 & H2 & H3).
  split; [exact H1|]. split; [exact H2|].
  apply (H3 parse_any _ _ eq_refl eq_refl).
Defined.

Lemma run_silent_phase (cbs : list callback) :
  forallb silent cbs = true ->
  forall m, sync_done (self m) = false ->
            sync_done (self (snd (run cbs m))) = false.
Proof.
  unfold run.
  induction cbs as [|cb cbs IH]; intros Hb m Hs; simpl; [exact Hs|].
  simpl in Hb. apply andb_true_iff in Hb. destruct Hb as [Hcb Hb].
  destruct (dispatch_silent cb m Hs Hcb) as (Hr & Hs' & _).
  unfold bind. destruct (dispatch cb m) as [[[]|e] m']; simpl in *;
    [now apply IH|discriminate].
Qed.

Lemma poll_loop_silent (steps : list poll_step) :
  silent_polls steps = true ->
  forall m, sync_done (self m) = false ->
            calls (snd (poll_loop steps m)) = calls m /\
            puts (snd (poll_loop steps m)) = puts m.
Proof.
  induction steps as [|st steps IH]; intros Hb m Hs; simpl; [tauto|].
  simpl in Hb. apply andb_true_iff in Hb. destruct Hb as [Hst Hb].
  destruct (run_silent (delivered st) Hst m Hs) as (Hr & Hc & Hp).
  pose proof (run_silent_phase (delivered st) Hst m Hs) as Hs'.
  destruct (run (delivered st) m) as [[[]|e] m']; simpl in *;
    [|discriminate].
  destruct (returns st) as [[|]|e]; simpl; [|tauto|tauto].
  destruct (IH Hb m' Hs') as [Hc2 Hp2]. rewrite Hc2, Hp2. tauto.
Qed.

(** X17. A refresh after a reconnect publishes nothing. Every connection
    starts from an empty [changedb] in the refresh phase, whatever the
    previous connection held; so while its polls deliver entries, batches
    of present identifiers and cookies only, as a refresh of a directory
    without deletions does, nothing reaches [post_change] and nothing is
    sent, however many entries arrive and whether they were known to the
    previous connection or not. *)
Theorem refresh_after_reconnect_is_silent (cfg : config)
    (steps : list poll_step) (m : machine) :
  silent_polls steps = true ->
  calls (snd (poll_loop steps (connect cfg m))) = calls m /\
  puts (snd (poll_loop steps (connect cfg m))) = puts m.
Proof.
  intros Hb.
  destruct (connect_fresh cfg m) as (_ & _ & Hs & _).
  destruct (poll_loop_silent steps Hb (connect cfg m) Hs) as [Hc Hp].
  rewrite Hc, Hp. destruct (connect_sink cfg m) as [_ Hputs].
  split; [|exact Hputs].
  unfold connect. destruct (pubsuburl cfg) as [url|]; [|reflexivity].
  destruct (String.eqb url ""); reflexivity.
Qed.

Lemma refresh_after_reconnect_is_silent_witness :
  silent_polls (polls attempt_exhausted) = true /\
  calls (snd (poll_loop (polls attempt_exhausted)
                (connect sample_config
                   (snd (run [OnRefreshDone;
                              OnEntry (txt "cn=alice") alice_attributes "u1"]
                             boot)))))
  = calls (snd (run [OnRefreshDone;
                     OnEntry (txt "cn=alice") alice_attributes "u1"] boot)) /\
  puts (snd (poll_loop (polls attempt_exhausted)
               (connect sample_config
                  (snd (run [OnRefreshDone;
                             OnEntry (txt "cn=alice") alice_attributes "u1"]
                            boot)))))
  = puts (snd (run [OnRefreshDone;
                    OnEntry (txt "cn=alice") alice_attributes "u1"] boot)).
Proof.
  split; [reflexivity|].
  apply (refresh_after_reconnect_is_silent sample_config
           (polls attempt_exhausted)
           (snd (run [OnRefreshDone;
                      OnEntry (txt "cn=alice") alice_attributes "u1"] boot))).
  reflexivity.
Defined.

(** ** What is sent holds text only *)

Lemma convert_member_dict_free (v v' : pyval) :
  (dict_free v = true -> forall r, stringify v = Ok r -> dict_free r = true) ->
  dict_free v = true -> convert_member v = Ok v' -> dict_free v' = true.
Proof.
  intros IH Hf H. destruct v as [b|s|l|d]; simpl in H.
  - unfold rmap, rbind in H. destruct (str_utf8 b); inversion H. reflexivity.
  - inversion H. reflexivity.
  - apply (IH Hf _ H).
  - discriminate Hf.
Qed.

Lemma stringify_keeps_dict_free (v : pyval) :
  dict_free v = true -> forall r, stringify v = Ok r -> dict_free r = true.
Proof.
  induction v as [b|s|l IH|d IH] using pyval_nested_ind; intros Hf r H.
  - simpl in H. unfold rmap, rbind in H. destruct (str_utf8 b); inversion H.
    reflexivity.
  - inversion H. reflexivity.
  - rewrite stringify_list_eq in H. unfold rmap, rbind in H.
    destruct (list_loop convert_member l) as [l'|e] eqn:El; inversion H.
    clear H H1. simpl in *. revert l' El Hf.
    induction IH as [|v l Hv Hl IHl]; intros l' El Hf; simpl in El.
    + inversion El. reflexivity.
    + simpl in Hf. apply andb_true_iff in Hf. destruct Hf as [H1 H2].
      destruct (convert_member v) as [v'|e] eqn:Ev; simpl in El;
        [|discriminate].
      destruct (list_loop convert_member l) as [l1|e] eqn:E1; simpl in El;
        [|discriminate].
      inversion El. simpl.
      rewrite (convert_member_dict_free v v' Hv H1 Ev).
      apply (IHl l1 eq_refl H2).
  - discriminate Hf.
Qed.

Lemma dict_loop_attribute_map (d : dict) :
  attribute_map d = true ->
  attribute_map (fst (dict_loop convert_member d)) = true.
Proof.
  unfold attribute_map. induction d as [|[k v] d IH]; intros H; simpl;
    [reflexivity|].
  simpl in H. pose proof H as H0.
  apply andb_true_iff in H. destruct H as [H1 H2].
  destruct (convert_member v) as [v'|e] eqn:Ev; [|exact H0].
  specialize (IH H2).
  destruct (dict_loop convert_member d) as [d' o]. simpl in *.
  rewrite IH, andb_true_r.
  apply (convert_member_dict_free v v' (stringify_keeps_dict_free v) H1 Ev).
Qed.

Lemma build_js_attribute_maps (dn : pyval) (a p : dict) (ct : string) :
  attribute_map a = true -> attribute_map p = true ->
  attribute_map (fst (fst (build_js dn a p ct))) = true /\
  attribute_map (snd (fst (build_js dn a p ct))) = true.
Proof.
  intros Ha Hp.
  destruct (build_js_leaves dn a p ct) as [[-> | ->] [-> | ->]];
    split; try assumption; now apply dict_loop_attribute_map.
Qed.

Lemma build_js_text (dn : pyval) (a p : dict) (ct : string) (js : payload) :
  dict_free dn = true -> attribute_map a = true -> attribute_map p = true ->
  snd (build_js dn a p ct) = Ok js -> payload_text js = true.
Proof.
  intros Hdn Ha Hp. unfold build_js.
  destruct (stringify dn) as [dn'|e] eqn:Edn; [|discriminate].
  destruct (stringify_dict p) as [p' [e|]] eqn:Ep; [discriminate|].
  destruct (stringify_dict a) as [a' [e|]] eqn:Ea; [discriminate|].
  simpl. intros H. inversion H. unfold payload_text.
  cbn [js_dn js_old_attributes js_new_attributes].
  rewrite (stringify_dict_free_no_bytes dn Hdn dn' Edn).
  rewrite (stringify_attribute_map_no_bytes p p' Hp Ep).
  rewrite (stringify_attribute_map_no_bytes a a' Ha Ea).
  reflexivity.
Qed.

Lemma post_change_text (dn : pyval) (a p : dict) (ct : string) (m : machine) :
  dict_free dn = true -> attribute_map a = true -> attribute_map p = true ->
  Forall (fun q => payload_text (snd q) = true) (puts m) ->
  Forall (fun q => payload_text (snd q) = true)
         (puts (snd (post_change dn a p ct m))) /\
  self (snd (post_change dn a p ct m)) = self m /\
  attribute_map (fst (fst (fst (post_change dn a p ct m)))) = true /\
  attribute_map (snd (fst (fst (post_change dn a p ct m)))) = true.
Proof.
  intros Hdn Ha Hp Hm.
  pose proof (build_js_text dn a p ct) as Ht.
  pose proof (build_js_attribute_maps dn a p ct Ha Hp) as [Ha' Hp'].
  unfold post_change.
  destruct (build_js dn a p ct) as [[a' p'] [js|e]]; simpl in *.
  - split; [|tauto]. apply Forall_app. split; [exact Hm|].
    constructor; [now apply Ht|constructor].
  - tauto.
Qed.

Lemma delete_one_text (k : string) (m : machine) :
  text_only m -> text_only (snd (delete_one k m)).
Proof.
  intros [Hdb Hp]. unfold delete_one, od_item.
  destruct (od_get k (changedb (self m))) as [stored|] eqn:Hget;
    [|now split].
  pose proof (forallb_od_get attribute_map k stored _ Hdb Hget) as Hst.
  destruct (od_get "dn" stored) as [dn|] eqn:Hdn; [|now split].
  pose proof (forallb_od_get dict_free "dn" dn stored Hst Hdn) as Hfree.
  pose proof (post_change_text dn [] stored "delete" m Hfree eq_refl Hst Hp)
    as (Hp' & Hs & _ & Hprev).
  destruct (post_change dn [] stored "delete" m) as [[[a' p'] r] m'].
  simpl in *.
  assert (forallb (fun kv => attribute_map (snd kv))
                  (od_set k p' (changedb (self m'))) = true) as Hdb'.
  { rewrite Hs. now apply (forallb_od_set attribute_map). }
  destruct r as [b|e]; simpl; split; try assumption.
  now apply (forallb_od_del attribute_map).
Qed.

Lemma syncrepl_entry_text (dn : text) (a : dict) (u : string) (m : machine) :
  attribute_map a = true ->
  text_only m -> text_only (snd (syncrepl_entry dn a u m)).
Proof.
  intros Ha [Hdb Hp]. unfold syncrepl_entry.
  assert (attribute_map (snd (classify u (changedb (self m)))) = true)
    as Hprev.
  { unfold classify.
    destruct (od_get u (changedb (self m))) as [stored|] eqn:E;
      [|reflexivity].
    apply (forallb_od_get attribute_map u stored _ Hdb E). }
  destruct (classify u (changedb (self m))) as [ct prev]. simpl in Hprev.
  assert (attribute_map (od_set "dn" (PStr dn) a) = true) as Hattrs
      by now apply (forallb_od_set dict_free).
  assert (forallb (fun kv => attribute_map (snd kv))
            (changedb (self (store u (od_set "dn" (PStr dn) a) m))) = true)
    as Hdb1 by (simpl; now apply (forallb_od_set attribute_map)).
  destruct (sync_done (self (store u (od_set "dn" (PStr dn) a) m)));
    [|now split].
  pose proof (post_change_text (PStr dn) (od_set "dn" (PStr dn) a) prev ct
                (store u (od_set "dn" (PStr dn) a) m)
                eq_refl Hattrs Hprev Hp) as (Hp' & Hs & Ha' & _).
  destruct (post_change _ _ _ _ _) as [[[a' p'] r] m']. simpl in *.
  unfold text_only, store, with_self. simpl. split; [|exact Hp'].
  rewrite Hs. simpl. apply (forallb_od_set attribute_map); [exact Ha'|].
  exact Hdb1.
Qed.

Lemma dispatch_text (cb : callback) (m : machine) :
  ldap_shaped cb = true -> text_only m -> text_only (snd (dispatch cb m)).
Proof.
  intros Hcb Hm.
  assert (forall us x, text_only x -> text_only (snd (syncrepl_delete us x)))
    as Hdel.
  { intros us x. unfold syncrepl_delete.
    apply for_each_inv. exact delete_one_text. }
  destruct cb as [dn a u|us|[us|] [|]| |k]; cbn [dispatch].
  - now apply syncrepl_entry_text.
  - now apply Hdel.
  - now apply Hdel.
  - destruct (mark_present us m) as (p & Hrun & _). rewrite Hrun. exact Hm.
  - exact Hm.
  - cbn [syncrepl_present negb]. unfold bind.
    pose proof (Hdel (inferred_deletions (self m)) m Hm) as H.
    unfold inferred_deletions in H.
    destruct (syncrepl_delete _ m) as [[[]|e] m']; exact H.
  - exact Hm.
  - exact Hm.
Qed.

(** X19. What is sent holds text only. When the attribute maps of the
    entries bind names to values without dicts inside, as the directory
    client delivers them, every request that a session sends is free of
    binary values, in its name, its old map and its new map, whatever
    callbacks arrive in whatever phase; and every stored map keeps that
    shape. The values that [stringify] passes over never occur in what the
    program converts. *)
Theorem requests_hold_text_only (cbs : list callback) :
  forallb ldap_shaped cbs = true ->
  text_only (snd (run cbs boot)).
Proof.
  assert (forall l m, forallb ldap_shaped l = true -> text_only m ->
                      text_only (snd (run l m))) as H.
  { unfold run. induction l as [|cb l IH]; intros m Hl Hm; simpl;
      [exact Hm|].
    simpl in Hl. apply andb_true_iff in Hl. destruct Hl as [Hcb Hl].
    pose proof (dispatch_text cb m Hcb Hm) as Hstep.
    unfold bind. destruct (dispatch cb m) as [[[]|e] m']; simpl in *;
      [now apply IH|exact Hstep]. }
  intros Hl. apply H; [exact Hl|]. split; [reflexivity|constructor].
Qed.

Lemma requests_hold_text_only_witness :
  forallb ldap_shaped
    [OnEntry (txt "cn=alice") alice_attributes "u1"; OnRefreshDone;
     OnEntry (txt "cn=alice") [("cn", PList [PBytes [x62]])] "u1";
     OnDelete ["u1"]] = true /\
  List.length (puts (snd (run
    [OnEntry (txt "cn=alice") alice_attributes "u1"; OnRefreshDone;
     OnEntry (txt "cn=alice") [("cn", PList [PBytes [x62]])] "u1";
     OnDelete ["u1"]] boot))) = 2 /\
  text_only (snd (run
    [OnEntry (txt "cn=alice") alice_attributes "u1"; OnRefreshDone;
     OnEntry (txt "cn=alice") [("cn", PList [PBytes [x62]])] "u1";
     OnDelete ["u1"]] boot)).
Proof.
  split; [reflexivity|]. split; [reflexivity|].
  apply (requests_hold_text_only
    [OnEntry (txt "cn=alice") alice_attributes "u1"; OnRefreshDone;
     OnEntry (txt "cn=alice") [("cn", PList [PBytes [x62]])] "u1";
     OnDelete ["u1"]]).
  reflexivity.
Defined.

(** X20. [main] sleeps the backoff and nothing else. Along any script the
    sleeps of the process are calls of [time.sleep(5)], at most one per
    attempt, whatever the callbacks of the attempts did. *)
Theorem main_sleeps_backoff_only (cfg : config)
    (parse : string -> result LDAPUrl) (script : list attempt) (m : machine) :
  (exists n,
      n <= List.length script /\
      slept (snd (main_loop cfg script m)) = slept m ++ repeat backoff n) /\
  (exists n,
      n <= List.length script /\
      slept (snd (main cfg parse script m)) = slept m ++ repeat backoff n).
Proof.
  assert (forall x, exists n,
            n <= List.length script /\
            slept (snd (main_loop cfg script x)) = slept x ++ repeat backoff n)
    as Hloop.
  2: { split; [apply Hloop|]. unfold main.
       assert (exists n, n <= List.length script /\
                         slept m = slept m ++ repeat backoff n) as Hnone
           by (exists 0; split; [lia|simpl; now rewrite app_nil_r]).
       destruct (ldapurl cfg) as [s|]; [|exact Hnone].
       destruct (parse s) as [u|e]; [apply Hloop|exact Hnone]. }
  clear m. intros m.
  revert m. induction script as [|a rest IH]; intros m.
  - exists 0. split; [lia|]. simpl. now rewrite app_nil_r.
  - assert (exists k, k <= 1 /\
              slept (snd (iteration cfg a m)) = slept m ++ repeat backoff k)
      as (k & Hk & Hit).
    { unfold iteration.
      pose proof (proj2 (proj2 (proj2 (proj2 (connect_fresh cfg m))))) as Hc.
      pose proof (poll_loop_slept (polls a) (connect cfg m)) as Hp.
      assert (forall x, slept x = slept m ->
                exists k, k <= 1 /\ slept x = slept m ++ repeat backoff k)
        as Hzero.
      { intros x Hx. exists 0. split; [lia|]. simpl.
        now rewrite Hx, app_nil_r. }
      assert (forall x, slept x = slept m ->
                exists k, k <= 1 /\
                  slept (log_sleep backoff x) = slept m ++ repeat backoff k)
        as Hone.
      { intros x Hx. exists 1. split; [lia|]. simpl. now rewrite Hx. }
      destruct (constructed a) as [[]|e]; [|apply Hzero; reflexivity].
      destruct (bound a) as [[]|e].
      - destruct (searching a) as [n|e]; [|apply Hzero; simpl; congruence].
        destruct (poll_loop (polls a) (connect cfg m)) as [[|e|] m2];
          simpl in Hp.
        + apply Hzero. simpl. congruence.
        + assert (slept m2 = slept m) as Hm2 by congruence.
          destruct e; simpl;
            ((apply Hzero; simpl; congruence) || (apply Hone; congruence)).
        + apply Hzero. simpl. congruence.
      - destruct e; simpl;
          ((apply Hzero; simpl; congruence) || (apply Hone; congruence)). }
    simpl. destruct (iteration cfg a m) as [[|o] m1]; simpl in Hit.
    + destruct (IH m1) as (n & Hn & Hrest).
      exists (k + n). split; [lia|].
      rewrite Hrest, Hit, repeat_app, app_assoc. reflexivity.
    + exists k. split; [lia|exact Hit].
Qed.

(** * Entries in either phase *)

Lemma build_js_ok_attributes (dn : pyval) (a p : dict) (ct : string)
    (js : payload) :
  snd (build_js dn a p ct) = Ok js ->
  fst (fst (build_js dn a p ct)) = fst (stringify_dict a).
Proof.
  unfold build_js. destruct (stringify dn); [|discriminate].
  destruct (stringify_dict p) as [p' [e|]]; [discriminate|].
  destruct (stringify_dict a) as [a' [e|]]; [discriminate|reflexivity].
Qed.

(** The map that [syncrepl_entry] leaves under its identifier: the given
    map with the name written in, as it is or converted in place. *)
Lemma syncrepl_entry_stored (dn : text) (a : dict) (u : string) (m : machine) :
  exists stored,
    od_get u (changedb (self (snd (syncrepl_entry dn a u m)))) = Some stored /\
    (stored = od_set "dn" (PStr dn) a \/
     stored = fst (stringify_dict (od_set "dn" (PStr dn) a))) /\
    (sync_done (self m) = false -> stored = od_set "dn" (PStr dn) a) /\
    (sync_done (self m) = true ->
     fst (syncrepl_entry dn a u m) = Ok tt ->
     stored = fst (stringify_dict (od_set "dn" (PStr dn) a))).
Proof.
  unfold syncrepl_entry.
  destruct (classify u (changedb (self m))) as [ct prev].
  set (attrs := od_set "dn" (PStr dn) a).
  cbn [store with_self self sync_done set_changedb].
  destruct (sync_done (self m)) eqn:Hs.
  - pose proof (build_js_leaves (PStr dn) attrs prev ct) as [Hl _].
    pose proof (build_js_ok_attributes (PStr dn) attrs prev ct) as Hok.
    unfold post_change.
    destruct (build_js (PStr dn) attrs prev ct) as [[a' p'] [js|e]];
      simpl in *; exists a'.
    + split; [apply od_get_set_same|]. split; [exact Hl|].
      split; [discriminate|]. intros _ _. now apply (Hok js).
    + split; [apply od_get_set_same|]. split; [exact Hl|].
      split; discriminate.
  - exists attrs. simpl. split; [apply od_get_set_same|].
    split; [now left|]. split; [reflexivity|discriminate].
Qed.

Lemma syncrepl_entry_sync_done (dn : text) (a : dict) (u : string)
    (m : machine) :
  sync_done (self (snd (syncrepl_entry dn a u m))) = sync_done (self m).
Proof.
  destruct (syncrepl_entry_touches dn a u m) as (db' & -> & _).
  reflexivity.
Qed.

Lemma after_entries_sync_done (cs : list entry_call) :
  forall m, sync_done (self (after_entries cs m)) = sync_done (self m).
Proof.
  induction cs as [|[[dn a] u] cs IH]; intros m; simpl; [reflexivity|].
  now rewrite IH, syncrepl_entry_sync_done.
Qed.

Lemma after_entries_state (cs : list entry_call) :
  forall m u,
    match latest cs u with
    | Some d =>
      exists stored,
        od_get u (changedb (self (after_entries cs m))) = Some stored /\
        (stored = d \/ stored = fst (stringify_dict d)) /\
        (sync_done (self m) = false -> stored = d)
    | None =>
      od_get u (changedb (self (after_entries cs m)))
      = od_get u (changedb (self m))
    end.
Proof.
  induction cs as [|[[dn a] k] cs IH]; intros m u; [reflexivity|].
  cbn [after_entries latest].
  specialize (IH (snd (syncrepl_entry dn a k m)) u).
  rewrite syncrepl_entry_sync_done in IH.
  destruct (latest cs u) as [d|]; [exact IH|].
  rewrite IH. unfold entry_uuid, stored_map. simpl.
  destruct (String.eqb u k) eqn:E.
  - apply String.eqb_eq in E. subst k.
    destruct (syncrepl_entry_stored dn a u m) as (stored & Hg & Hor & Hr & _).
    exists stored. tauto.
  - apply String.eqb_neq in E.
    destruct (syncrepl_entry_touches dn a k m) as (db' & -> & _ & _ & Hf).
    simpl. now apply Hf.
Qed.

Lemma after_entries_mem (cs : list entry_call) :
  forall m u,
    od_mem u (changedb (self (after_entries cs m)))
    = od_mem u (changedb (self m))
      || existsb (String.eqb u) (map entry_uuid cs).
Proof.
  induction cs as [|[[dn a] k] cs IH]; intros m u; simpl.
  - now rewrite orb_false_r.
  - rewrite IH. unfold entry_uuid at 1. simpl.
    destruct (syncrepl_entry_touches dn a k m) as (db' & -> & Hm & _ & Hf).
    simpl. rewrite orb_assoc. f_equal.
    destruct (String.eqb u k) eqn:E.
    + apply String.eqb_eq in E. subst k. rewrite Hm. now rewrite orb_true_r.
    + apply String.eqb_neq in E. unfold od_mem. rewrite (Hf u E).
      now rewrite orb_false_r.
Qed.

Lemma after_entries_keys (dn : text) (a : dict) (u : string) (m : machine) :
  forall x,
    existsb (String.eqb x)
            (od_keys (changedb (self (snd (syncrepl_entry dn a u m)))))
    = existsb (String.eqb x) (u :: od_keys (changedb (self m))).
Proof.
  intros x.
  destruct (syncrepl_entry_touches dn a u m) as (db' & -> & _ & Hk & _).
  simpl changedb. rewrite Hk, <- (od_keys_set u ([] : dict)).
  apply existsb_keys_set.
Qed.

Lemma after_entries_events (cs : list entry_call) :
  forall m,
    sync_done (self m) = true ->
    exists new,
      calls (after_entries cs m) = calls m ++ new /\
      map ev_change_type new = entry_kinds (od_keys (changedb (self m))) cs /\
      map ev_dn new = map (fun c => PStr (fst (fst c))) cs /\
      map ev_attributes new = map stored_map cs.
Proof.
  induction cs as [|[[dn a] u] cs IH]; intros m Hs.
  - exists []. simpl. now rewrite app_nil_r.
  - cbn [after_entries].
    assert (sync_done (self (snd (syncrepl_entry dn a u m))) = true) as Hs'
        by now rewrite syncrepl_entry_sync_done.
    destruct (IH _ Hs') as (new & Hc & Hk & Hd & Ha).
    exists (entry_event dn a u (changedb (self m)) :: new).
    split; [|split; [|split]].
    + rewrite Hc, (syncrepl_entry_event dn a u m Hs), <- app_assoc.
      reflexivity.
    + simpl. rewrite Hk. f_equal.
      * unfold classify, entry_uuid. simpl.
        rewrite <- od_mem_existsb. unfold od_mem.
        now destruct (od_get u (changedb (self m))).
      * apply entry_kinds_ext. apply after_entries_keys.
    + simpl. now rewrite Hd.
    + simpl. now rewrite Ha.
Qed.

Lemma run_after_entries (cs : list entry_call) :
  forall m,
    fst (run (entries cs) m) = Ok tt ->
    snd (run (entries cs) m) = after_entries cs m.
Proof.
  induction cs as [|[[dn a] u] cs IH]; intros m; [reflexivity|].
  cbn [entries map after_entries]. rewrite run_cons. cbn [dispatch].
  destruct (syncrepl_entry dn a u m) as [[[]|e] m1]; simpl;
    [apply IH|discriminate].
Qed.

Lemma classify_cases (u : string) (db : odict dict) :
  classify u db
  = (if od_mem u db then "modify" else "add",
     match od_get u db with Some stored => stored | None => [] end).
Proof.
  unfold classify, od_mem. now destruct (od_get u db).
Qed.

(** C3. A session, fresh or not, in either phase, receives any sequence of
    [syncrepl_entry] calls. Afterwards [changedb] holds the identifiers it
    held before and exactly those that occurred, each of the latter bound
    to the attribute map of its latest call: the map into which line 55 has
    written the name, as it is in the refresh phase, and as it is or
    converted in place by the publication in the persisting phase. The call
    that follows is classified ['add'] with an empty previous map when its
    identifier is not stored, that is, has neither occurred nor been there
    before, and ['modify'] with the map stored for it otherwise. In the
    persisting phase this classification is what reaches [post_change]: one
    event per call, in order, under the name and with the map of the call;
    in the refresh phase every call returns and nothing is emitted. On a
    fresh session the stored maps are exactly those of the latest calls. *)
Theorem entries_build_changedb (cs : list entry_call) (next : entry_call)
    (m : machine) :
  (forall u,
      match latest cs u with
      | Some d =>
        exists stored,
          od_get u (changedb (self (after_entries cs m))) = Some stored /\
          (stored = d \/ stored = fst (stringify_dict d)) /\
          (sync_done (self m) = false -> stored = d)
      | None =>
        od_get u (changedb (self (after_entries cs m)))
        = od_get u (changedb (self m))
      end) /\
  (forall u,
      od_mem u (changedb (self (after_entries cs m)))
      = od_mem u (changedb (self m))
        || existsb (String.eqb u) (map entry_uuid cs)) /\
  classify (entry_uuid next) (changedb (self (after_entries cs m)))
  = (if od_mem (entry_uuid next) (changedb (self m))
        || existsb (String.eqb (entry_uuid next)) (map entry_uuid cs)
     then "modify" else "add",
     match od_get (entry_uuid next) (changedb (self (after_entries cs m))) with
     | Some stored => stored
     | None => []
     end) /\
  (sync_done (self m) = true ->
   calls (snd (syncrepl_entry (fst (fst next)) (snd (fst next))
                 (entry_uuid next) (after_entries cs m)))
   = calls (after_entries cs m)
     ++ [{| ev_dn := PStr (fst (fst next));
            ev_attributes := stored_map next;
            ev_previous_attributes :=
              match od_get (entry_uuid next)
                           (changedb (self (after_entries cs m))) with
              | Some stored => stored
              | None => []
              end;
            ev_change_type :=
              if od_mem (entry_uuid next) (changedb (self m))
                 || existsb (String.eqb (entry_uuid next))
                            (map entry_uuid cs)
              then "modify" else "add" |}]) /\
  (sync_done (self m) = true ->
   exists new,
     calls (after_entries cs m) = calls m ++ new /\
     map ev_change_type new = entry_kinds (od_keys (changedb (self m))) cs /\
     map ev_dn new = map (fun c => PStr (fst (fst c))) cs /\
     map ev_attributes new = map stored_map cs) /\
  (sync_done (self m) = false ->
   fst (run (entries cs) m) = Ok tt /\
   calls (after_entries cs m) = calls m /\
   puts (after_entries cs m) = puts m) /\
  (fst (run (entries cs) m) = Ok tt ->
   snd (run (entries cs) m) = after_entries cs m) /\
  (fst (run (entries cs) boot) = Ok tt /\
   calls (snd (run (entries cs) boot)) = [] /\
   (forall u,
       od_get u (changedb (self (snd (run (entries cs) boot))))
       = latest cs u) /\
   (forall u,
       od_mem u (changedb (self (snd (run (entries cs) boot))))
       = existsb (String.eqb u) (map entry_uuid cs)) /\
   classify (entry_uuid next) (changedb (self (snd (run (entries cs) boot))))
   = match latest cs (entry_uuid next) with
     | Some stored => ("modify", stored)
     | None => ("add", [])
     end).
Proof.
  assert (classify (entry_uuid next) (changedb (self (after_entries cs m)))
          = (if od_mem (entry_uuid next) (changedb (self m))
                || existsb (String.eqb (entry_uuid next)) (map entry_uuid cs)
             then "modify" else "add",
             match od_get (entry_uuid next)
                          (changedb (self (after_entries cs m))) with
             | Some stored => stored
             | None => []
             end)) as Hclass
      by (rewrite classify_cases; now rewrite after_entries_mem).
  split; [apply after_entries_state|].
  split; [apply after_entries_mem|].
  split; [exact Hclass|].
  split; [|split; [apply after_entries_events|split; [|split]]].
  - intros Hs. destruct next as [[dn a] u]. simpl fst. simpl snd.
    unfold entry_uuid in *. simpl snd in *.
    rewrite syncrepl_entry_event
      by (now rewrite after_entries_sync_done).
    unfold entry_event. rewrite Hclass. reflexivity.
  - intros Hs.
    destruct (run_silent (entries cs) (entries_silent cs) m Hs)
      as (Hr & Hc & Hp).
    rewrite <- (run_after_entries cs m Hr). tauto.
  - apply run_after_entries.
  - apply entries_refresh_from_boot.
Qed.

Lemma entries_build_changedb_witness :
  sync_done (self (snd (run [OnRefreshDone] boot))) = true /\
  calls (snd (syncrepl_entry (txt "cn=bob") photo_attributes "u1"
                (after_entries [(txt "cn=alice", alice_attributes, "u1")]
                   (snd (run [OnRefreshDone] boot)))))
  = [{| ev_dn := PStr (txt "cn=alice");
        ev_attributes := od_set "dn" (PStr (txt "cn=alice")) alice_attributes;
        ev_previous_attributes := [];
        ev_change_type := "add" |};
     {| ev_dn := PStr (txt "cn=bob");
        ev_attributes := od_set "dn" (PStr (txt "cn=bob")) photo_attributes;
        ev_previous_attributes :=
          [("cn", PList [PStr (txt "alice")]); ("dn", PStr (txt "cn=alice"))];
        ev_change_type := "modify" |}].
Proof.
  split; [reflexivity|].
  destruct (entries_build_changedb
              [(txt "cn=alice", alice_attributes, "u1")]
              (txt "cn=bob", photo_attributes, "u1")
              (snd (run [OnRefreshDone] boot)))
    as (_ & _ & _ & Hnext & _).
  exact (Hnext eq_refl).
Defined.

(** * The recorded name, in full *)

Lemma syncrepl_entry_records_name (dn : text) (a : dict) (u : string)
    (m : machine) :
  exists stored,
    od_get u (changedb (self (snd (syncrepl_entry dn a u m)))) = Some stored /\
    (stored = od_set "dn" (PStr dn) a \/
     stored = fst (stringify_dict (od_set "dn" (PStr dn) a))) /\
    (sync_done (self m) = false -> stored = od_set "dn" (PStr dn) a) /\
    od_get "dn" stored = Some (PStr dn) /\
    od_keys stored = od_keys (od_set "dn" (PStr dn) a).
Proof.
  destruct (syncrepl_entry_stored dn a u m) as (stored & Hg & Hor & Hr & _).
  exists stored. split; [exact Hg|]. split; [exact Hor|]. split; [exact Hr|].
  destruct Hor as [-> | ->].
  - split; [apply od_get_set_same|reflexivity].
  - split.
    + apply dict_loop_keeps_text, od_get_set_same.
    + apply dict_loop_keys.
Qed.

Lemma run_names (cbs : list callback) :
  forall m,
    fst (run cbs m) = Ok tt ->
    forall u stored,
      od_get u (changedb (self (snd (run cbs m)))) = Some stored ->
      match last_name cbs u with
      | Some dn => od_get "dn" stored = Some (PStr dn)
      | None =>
        exists stored0,
          od_get u (changedb (self m)) = Some stored0 /\
          forall s, od_get "dn" stored0 = Some (PStr s) ->
                    od_get "dn" stored = Some (PStr s)
      end.
Proof.
  induction cbs as [|cb cbs IH]; intros m Hok u stored Hget.
  - exists stored. simpl in Hget. tauto.
  - rewrite run_cons in Hok, Hget.
    pose proof (dispatch_keeps_names cb m) as Hkeep.
    destruct (dispatch cb m) as [[[]|e] m1] eqn:E; [|discriminate].
    simpl in Hkeep. specialize (IH m1 Hok u stored Hget).
    cbn [last_name]. destruct (last_name cbs u) as [dn|]; [exact IH|].
    destruct IH as (stored1 & Hg1 & Hk1).
    assert (entry_target cb = Some u \/ Some u <> entry_target cb) as [Ht|Ht].
    { destruct cb as [dn a k|us|us rd| |c]; simpl;
        try (right; discriminate).
      destruct (String.eqb u k) eqn:Ek.
      - apply String.eqb_eq in Ek. subst. now left.
      - apply String.eqb_neq in Ek. right. congruence. }
    + destruct cb as [dn a k|us|us rd| |c]; try discriminate.
      simpl in Ht. inversion Ht; subst k. rewrite String.eqb_refl.
      destruct (syncrepl_entry_records_name dn a u m)
        as (st & Hst & _ & _ & Hdn & _).
      cbn [dispatch] in E. rewrite E in Hst. simpl in Hst.
      rewrite Hg1 in Hst. inversion Hst; subst st. now apply Hk1.
    + destruct (Hkeep u stored1 Ht Hg1) as (stored0 & Hg0 & Hk0).
      assert (match cb with
              | OnEntry dn _ k => if String.eqb u k then Some dn else None
              | _ => None
              end = None) as ->.
      { destruct cb as [dn a k|us|us rd| |c]; try reflexivity.
        simpl in Ht. destruct (String.eqb u k) eqn:Ek; [|reflexivity].
        apply String.eqb_eq in Ek. subst. congruence. }
      exists stored0. split; [exact Hg0|]. intros s Hs. apply Hk1, Hk0, Hs.
Qed.

Lemma run_names_from_boot (cbs : list callback) (u : string) (stored : dict) :
  fst (run cbs boot) = Ok tt ->
  od_get u (changedb (self (snd (run cbs boot)))) = Some stored ->
  exists dn0, last_name cbs u = Some dn0 /\
              od_get "dn" stored = Some (PStr dn0).
Proof.
  intros Hok Hget. pose proof (run_names cbs boot Hok u stored Hget) as H.
  destruct (last_name cbs u) as [dn0|]; [now exists dn0|].
  destruct H as (stored0 & H0 & _). discriminate.
Qed.

(** C10, as the code has it. [syncrepl_entry] writes the name into the
    given attribute map under ['dn'], over any attribute of that name and
    leaving the others as given, before it stores the map: in either phase,
    and also when the publication raises, the map stored for the identifier
    is the given map with the name written in, as it is or converted in
    place, with the same keys, and binds ['dn'] to the name of the call. No
    callback stores a map in another way, and a stored map keeps its name
    until an entry for its identifier replaces it: in a session whose
    callbacks have returned, every stored map binds ['dn'] to the name of
    the latest [syncrepl_entry] for its identifier. So, in every state that
    a session reaches, each change handed to [post_change] or sent is
    named: an addition and a modification carry the name of the event under
    ['dn'] of the new map, a deletion under ['dn'] of the previous map, and
    the previous map of a modification carries the name of the entry before
    for that identifier, which is the name of the event unless the entry
    was renamed. *)
Theorem dn_recorded_in_every_map (dn : text) (attributes : dict)
    (uuid : string) (m : machine) (cb : callback) (cbs : list callback) :
  (exists stored,
      od_get uuid (changedb (self (snd (syncrepl_entry dn attributes uuid m))))
      = Some stored /\
      (stored = od_set "dn" (PStr dn) attributes \/
       stored = fst (stringify_dict (od_set "dn" (PStr dn) attributes))) /\
      (sync_done (self m) = false ->
       stored = od_set "dn" (PStr dn) attributes) /\
      od_get "dn" stored = Some (PStr dn) /\
      od_keys stored = od_keys (od_set "dn" (PStr dn) attributes)) /\
  (od_get "dn" (od_set "dn" (PStr dn) attributes) = Some (PStr dn) /\
   forall k, k <> "dn" ->
             od_get k (od_set "dn" (PStr dn) attributes)
             = od_get k attributes) /\
  keeps_names (entry_target cb) m (snd (dispatch cb m)) /\
  named (snd (run cbs boot)) /\
  (fst (run cbs boot) = Ok tt ->
   forall u stored,
     od_get u (changedb (self (snd (run cbs boot)))) = Some stored ->
     exists dn0, last_name cbs u = Some dn0 /\
                 od_get "dn" stored = Some (PStr dn0)) /\
  (fst (run cbs boot) = Ok tt ->
   sync_done (self (snd (run cbs boot))) = true ->
   forall stored,
     od_get uuid (changedb (self (snd (run cbs boot)))) = Some stored ->
     calls (snd (syncrepl_entry dn attributes uuid (snd (run cbs boot))))
     = calls (snd (run cbs boot))
       ++ [{| ev_dn := PStr dn;
              ev_attributes := od_set "dn" (PStr dn) attributes;
              ev_previous_attributes := stored;
              ev_change_type := "modify" |}] /\
     exists dn0, last_name cbs uuid = Some dn0 /\
                 od_get "dn" stored = Some (PStr dn0)).
Proof.
  split; [apply syncrepl_entry_records_name|].
  split.
  { split; [apply od_get_set_same|].
    intros k Hk. apply od_get_set_other. congruence. }
  split; [apply dispatch_keeps_names|].
  split.
  { unfold run. apply for_each_inv; [exact dispatch_named|exact boot_named]. }
  split.
  - intros Hok u stored Hget. now apply run_names_from_boot.
  - intros Hok Hs stored Hget. split.
    + rewrite (syncrepl_entry_event dn attributes uuid _ Hs).
      unfold entry_event, classify. now rewrite Hget.
    + now apply run_names_from_boot.
Qed.

Lemma dn_recorded_in_every_map_witness :
  fst (run [OnEntry (txt "cn=a") alice_attributes "u1"; OnRefreshDone] boot)
  = Ok tt /\
  calls (snd (syncrepl_entry (txt "cn=b") alice_attributes "u1"
                (snd (run [OnEntry (txt "cn=a") alice_attributes "u1";
                           OnRefreshDone] boot))))
  = calls (snd (run [OnEntry (txt "cn=a") alice_attributes "u1";
                     OnRefreshDone] boot))
    ++ [{| ev_dn := PStr (txt "cn=b");
           ev_attributes := od_set "dn" (PStr (txt "cn=b")) alice_attributes;
           ev_previous_attributes :=
             od_set "dn" (PStr (txt "cn=a")) alice_attributes;
           ev_change_type := "modify" |}] /\
  exists dn0,
    last_name [OnEntry (txt "cn=a") alice_attributes "u1"; OnRefreshDone] "u1"
    = Some dn0 /\
    od_get "dn" (od_set "dn" (PStr (txt "cn=a")) alice_attributes)
    = Some (PStr dn0).
Proof.
  split; [reflexivity|].
  destruct (dn_recorded_in_every_map (txt "cn=b") alice_attributes "u1" boot
              OnRefreshDone
              [OnEntry (txt "cn=a") alice_attributes "u1"; OnRefreshDone])
    as (_ & _ & _ & _ & _ & Hmod).
  apply (Hmod eq_refl eq_refl
           (od_set "dn" (PStr (txt "cn=a")) alice_attributes) eq_refl).
Defined.

(** C10, as stated, fails for a renamed entry. The entry is stored as
    [cn=a] and then arrives as [cn=b] under the same identifier: the
    modification is sent under the name [cn=b], and its old map carries
    ['dn'] = [cn=a]. *)
Lemma modification_carries_the_old_name :
  puts (snd (run [OnEntry (txt "cn=a") alice_attributes "u1";
                  OnRefreshDone;
                  OnEntry (txt "cn=b") alice_attributes "u1"] boot))
  = [("http://localhost:2069/private/ldap",
      {| js_dn := PStr (txt "cn=b");
         js_change_type := "modify";
         js_old_attributes :=
           PDict [("cn", PList [PStr (txt "alice")]);
                  ("dn", PStr (txt "cn=a"))];
         js_new_attributes :=
           PDict [("cn", PList [PStr (txt "alice")]);
                  ("dn", PStr (txt "cn=b"))] |})] /\
  od_get "dn" [("cn", PList [PStr (txt "alice")]); ("dn", PStr (txt "cn=a"))]
  <> Some (PStr (txt "cn=b")).
Proof. split; [reflexivity|discriminate]. Qed.
